(** * Pairs-trading signal generator: the statistical pipeline of
    [pairs_trading_strategy.py]

    The script works on numpy [float64] values held in pandas Series.  The
    embedding keeps the special values the code relies on ([nan] and the two
    infinities, as produced by a division by zero or by a rolling window that
    is not full) and takes every finite value as the real number it stands
    for: rounding, overflow and the sign of zero are not tracked.  A Series is
    the list of its values in index order; the index labels of all the Series
    of one run are those of the aligned frame, so a position stands for its
    label.

    Where rounding, overflow or the sign of zero decide what the code
    returns (the hedge ratio of a constant or of a shifted series, the round
    trip of the spread, the integer window of the half-life), the functions
    are given a second time on IEEE 754 binary64 values, in module [B64];
    the statements about them are in module [Binary64].

    The numpy, pandas and Python operations the script calls ([np.cov],
    [rolling], [shift], [diff], [dropna], [max], [int]) are written out from
    their documented behaviour.  [np.polyfit] is a parameter of the script's
    functions; [lstsq_line] is numpy's least-squares line, with which the
    script is run on examples.  The brokerage session is an input of [main],
    and a run is the list of what it prints, starts to compute and plots,
    with its result. *)

From Stdlib Require Import String Reals Lra Lia ZArith Bool List Sorted.
From Stdlib Require Floats.
Import ListNotations.

(** ** numpy [float64] *)

Module F64.

Inductive t : Type :=
| Fin (r : R)
| PInf
| NInf
| NaN.

Definition zero : t := Fin 0.
Definition one : t := Fin 1.

Definition is_nan (a : t) : bool :=
  match a with NaN => true | _ => false end.

Definition is_finite (a : t) : bool :=
  match a with Fin _ => true | _ => false end.

(** The infinity that carries the sign of [r]; [r] is not zero where this is
    used. *)
Definition inf_of_sign (r : R) : t :=
  if Rlt_dec 0 r then PInf else NInf.

Definition neg (a : t) : t :=
  match a with
  | Fin r => Fin (- r)
  | PInf => NInf
  | NInf => PInf
  | NaN => NaN
  end.

Definition add (a b : t) : t :=
  match a, b with
  | NaN, _ | _, NaN => NaN
  | Fin x, Fin y => Fin (x + y)
  | PInf, NInf | NInf, PInf => NaN
  | PInf, _ | _, PInf => PInf
  | NInf, _ | _, NInf => NInf
  end.

Definition sub (a b : t) : t := add a (neg b).

Definition mul (a b : t) : t :=
  match a, b with
  | NaN, _ | _, NaN => NaN
  | Fin x, Fin y => Fin (x * y)
  | Fin x, PInf | PInf, Fin x =>
      if Req_EM_T x 0 then NaN else inf_of_sign x
  | Fin x, NInf | NInf, Fin x =>
      if Req_EM_T x 0 then NaN else inf_of_sign (- x)
  | PInf, PInf | NInf, NInf => PInf
  | PInf, NInf | NInf, PInf => NInf
  end.

(** numpy scalar and array division: a zero divisor gives [nan] for [0/0] and
    a signed infinity otherwise, with a warning and no exception. *)
Definition div (a b : t) : t :=
  match a, b with
  | NaN, _ | _, NaN => NaN
  | Fin x, Fin y =>
      if Req_EM_T y 0
      then (if Req_EM_T x 0 then NaN else inf_of_sign x)
      else Fin (x / y)
  | Fin _, (PInf | NInf) => Fin 0
  | (PInf | NInf), (PInf | NInf) => NaN
  | PInf, Fin y => if Rlt_dec y 0 then NInf else PInf
  | NInf, Fin y => if Rlt_dec y 0 then PInf else NInf
  end.

Definition sqrt (a : t) : t :=
  match a with
  | Fin x => if Rlt_dec x 0 then NaN else Fin (R_sqrt.sqrt x)
  | PInf => PInf
  | NInf | NaN => NaN
  end.

(** Comparisons: every comparison with [nan] is false. *)
Definition ltb (a b : t) : bool :=
  match a, b with
  | NaN, _ | _, NaN => false
  | Fin x, Fin y => if Rlt_dec x y then true else false
  | NInf, (Fin _ | PInf) => true
  | Fin _, PInf => true
  | _, _ => false
  end.

Definition gtb (a b : t) : bool := ltb b a.

Definition eqb (a b : t) : bool :=
  match a, b with
  | Fin x, Fin y => if Req_EM_T x y then true else false
  | PInf, PInf | NInf, NInf => true
  | _, _ => false
  end.

End F64.

Abbreviation f64 := F64.t.
Abbreviation Fin := F64.Fin.
Abbreviation PInf := F64.PInf.
Abbreviation NInf := F64.NInf.
Abbreviation NaN := F64.NaN.


(** ** Python results: a value or an unhandled exception *)

Inductive exn : Type :=
| ValueError
| TypeError
| OverflowError
| LinAlgError.

Inductive result (A : Type) : Type :=
| Ok (a : A)
| Raise (e : exn).
Arguments Ok {A} a.
Arguments Raise {A} e.

(** ** numpy arrays and pandas Series of floats *)

Definition series : Type := list f64.

Module Series.

(** The sum of an array, [np.sum]. *)
Definition sum (s : series) : f64 := fold_right F64.add F64.zero s.

(** The mean of an array: the sum over the number of elements; an empty array
    gives [0/0 = nan]. *)
Definition mean (s : series) : f64 :=
  F64.div (sum s) (Fin (INR (length s))).

(** Arithmetic of two Series, label by label.  A label that only one operand
    has gets [nan]. *)
Fixpoint map2 (f : f64 -> f64 -> f64) (a b : series) : series :=
  match a, b with
  | [], _ => map (fun _ => NaN) b
  | _, [] => map (fun _ => NaN) a
  | x :: a', y :: b' => f x y :: map2 f a' b'
  end.

Definition add : series -> series -> series := map2 F64.add.
Definition sub : series -> series -> series := map2 F64.sub.
Definition div : series -> series -> series := map2 F64.div.

(** [k * s] for a scalar [k]. *)
Definition scale (k : f64) (s : series) : series := map (F64.mul k) s.

(** [s * k] and [s + k] for a scalar [k], and [-s]. *)
Definition times (s : series) (k : f64) : series :=
  map (fun v => F64.mul v k) s.
Definition plus (s : series) (k : f64) : series :=
  map (fun v => F64.add v k) s.
Definition neg (s : series) : series := map F64.neg s.

(** [a < b] and [a > b] of two Series, as a boolean mask.  pandas compares
    only Series that carry the same labels; every comparison of the script
    is between Series indexed like the spread. *)
Definition lt (a b : series) : list bool :=
  map (fun p => F64.ltb (fst p) (snd p)) (combine a b).
Definition gt (a b : series) : list bool :=
  map (fun p => F64.gtb (fst p) (snd p)) (combine a b).

(** Boolean indexing [s[mask]]: the entries where the mask holds, each with
    its label. *)
Fixpoint select_from (i : nat) (s : series) (mask : list bool)
  : list (nat * f64) :=
  match s, mask with
  | v :: s', b :: mask' =>
      if b then (i, v) :: select_from (S i) s' mask'
      else select_from (S i) s' mask'
  | _, _ => []
  end.
Definition select (s : series) (mask : list bool) : list (nat * f64) :=
  select_from 0 s mask.

(** The labels of a selection, [.index]. *)
Definition index (sel : list (nat * f64)) : list nat := map fst sel.

(** [s.shift(1)]: every value moves one label down, the first label gets
    [nan] and the last value is lost. *)
Definition shift1 (s : series) : series :=
  match s with
  | [] => []
  | _ :: _ => NaN :: removelast s
  end.

(** [s.diff()]: [s - s.shift(1)]. *)
Definition diff (s : series) : series := sub s (shift1 s).

(** [s.dropna()]. *)
Definition dropna (s : series) : series :=
  filter (fun v => negb (F64.is_nan v)) s.

(** The sum of squared deviations from the mean, and the variance and the
    standard deviation with [ddof] delta degrees of freedom: [nan] unless
    there are more than [ddof] observations. *)
Definition ssqdm (xs : series) : f64 :=
  let m := mean xs in
  sum (map (fun v => let d := F64.sub v m in F64.mul d d) xs).

Definition var (ddof : nat) (xs : series) : f64 :=
  if (ddof <? length xs)%nat
  then F64.div (ssqdm xs) (Fin (INR (length xs - ddof)))
  else NaN.

Definition std (ddof : nat) (xs : series) : f64 := F64.sqrt (var ddof xs).

(** [s.rolling(w)]: the window of label [i] holds the [w] observations that
    end at [i], inclusive; with the default [min_periods = w] there is no
    window before label [w - 1]. *)
Definition window_at (w : nat) (s : series) (i : nat) : option series :=
  if (i + 1 <? w)%nat then None
  else Some (firstn w (skipn (i + 1 - w) s)).

Definition rolling (stat : series -> f64) (w : nat) (s : series) : series :=
  map (fun i => match window_at w s i with
                | Some xs => stat xs
                | None => NaN
                end)
      (seq 0 (length s)).

Definition rolling_mean : nat -> series -> series := rolling mean.
Definition rolling_std : nat -> series -> series := rolling (std 1).

(** [s[labels]] for an index of labels, as in [spread[buy_signals.index]] of
    [plot_strategy]: the values at the labels, or no value ([KeyError]) when
    a label is not in the index of [s]. *)
Fixpoint loc (s : series) (labels : list nat) : option series :=
  match labels with
  | [] => Some []
  | i :: labels' =>
      match nth_error s i, loc s labels' with
      | Some v, Some vs => Some (v :: vs)
      | _, _ => None
      end
  end.

End Series.

(** [np.cov(y, x)]: the 2x2 matrix of the centred dot products times
    [1 / (n - 1)]; numpy replaces a non-positive [n - 1] by [0.0].  Arrays of
    different lengths cannot be stacked. *)
Record cov_matrix : Type := Cov { c00 : f64; c01 : f64; c10 : f64; c11 : f64 }.

Definition center (s : series) : series :=
  let m := Series.mean s in map (fun v => F64.sub v m) s.

Definition dot (a b : series) : f64 :=
  Series.sum (map (fun p => F64.mul (fst p) (snd p)) (combine a b)).

Definition np_cov (y x : series) : result cov_matrix :=
  if (length y =? length x)%nat then
    let fact := (Z.of_nat (length y) - 1)%Z in
    let fact := if (fact <=? 0)%Z then 0%Z else fact in
    let k := F64.div F64.one (Fin (IZR fact)) in
    let yc := center y in
    let xc := center x in
    Ok (Cov (F64.mul (dot yc yc) k) (F64.mul (dot yc xc) k)
            (F64.mul (dot xc yc) k) (F64.mul (dot xc xc) k))
  else Raise ValueError.

(** Python's [max(1, h)]: [h] when [h > 1], else [1]. *)
Definition py_max1 (h : f64) : f64 :=
  if F64.gtb h F64.one then h else F64.one.

(** Python's [int(h)]: truncation toward zero; an infinity raises
    [OverflowError] and [nan] raises [ValueError]. *)
Definition trunc (r : R) : Z :=
  if Rle_dec 0 r then Int_part r else (- Int_part (- r))%Z.

Definition py_int (h : f64) : result Z :=
  match h with
  | Fin r => Ok (trunc r)
  | PInf | NInf => Raise OverflowError
  | NaN => Raise ValueError
  end.

(** ** The functions of the script *)

(** [calculate_hedge_ratio]. *)
Definition calculate_hedge_ratio (y x : series) : result f64 :=
  match np_cov y x with
  | Ok cov_matrix => Ok (F64.div (c01 cov_matrix) (c11 cov_matrix))
  | Raise e => Raise e
  end.

(** [calculate_spread]. *)
Definition calculate_spread (y x : series) (hedge_ratio : f64) : series :=
  Series.sub y (Series.scale hedge_ratio x).

(** [adaptive_thresholds]. *)
Definition adaptive_thresholds (spread : series) (window : nat)
  : series * series :=
  let rolling_std := Series.rolling_std window spread in
  let upper_threshold := Series.times rolling_std (Fin 2) in
  let lower_threshold := Series.times (Series.neg rolling_std) (Fin 2) in
  (upper_threshold, lower_threshold).

(** [calculate_zscore]. *)
Definition calculate_zscore (spread : series) (window : nat) : series :=
  let rolling_mean := Series.rolling_mean window spread in
  let rolling_std := Series.rolling_std window spread in
  Series.div (Series.sub spread rolling_mean) rolling_std.


(** ** The side effects of a run

    What a run prints, which statistic it starts to compute and what it hands
    to the plot, in order, followed by how it ends: normally, or with an
    exception that nothing catches. *)

Inductive stat : Type :=
| HedgeRatio
| Spread
| HalfLife
| ZScore
| Thresholds
| Signals.

Inductive event : Type :=
| Print (msg : string)
| Computes (s : stat)
| Plot (zscore spread : series) (buy_signals sell_signals : list (nat * f64)).

Definition M (A : Type) : Type := (list event * result A)%type.

Definition ret {A : Type} (a : A) : M A := ([], Ok a).

Definition bind {A B : Type} (m : M A) (k : A -> M B) : M B :=
  match m with
  | (tr, Ok a) => let (tr', r) := k a in (tr ++ tr', r)
  | (tr, Raise e) => (tr, Raise e)
  end.

Notation "x <- m ;; k" := (bind m (fun x => k))
  (at level 61, m at next level, right associativity).
Notation "m ;;; k" := (bind m (fun _ => k))
  (at level 61, right associativity).

Definition print (msg : string) : M unit := ([Print msg], Ok tt).

(** A call that computes the statistic [s] and returns or raises [r]. *)
Definition computing {A : Type} (s : stat) (r : result A) : M A :=
  ([Computes s], r).

Definition lift {A : Type} (r : result A) : M A := ([], r).

Definition trace {A : Type} (m : M A) : list event := fst m.
Definition outcome {A : Type} (m : M A) : result A := snd m.

(** ** The data feed *)

(** A historical bar: its date and its closing price (the script reads no
    other field). *)
Record bar : Type := Bar { date : Z; close : f64 }.

(** The brokerage session: whether [ib.connect] fails, and with which
    message, and what [ib.reqHistoricalData] returns for a symbol, a duration
    and a bar size. *)
Record IB : Type := {
  connect : option string;
  reqHistoricalData : string -> string -> string -> list bar
}.

(** What [fetch_delayed_data] returns: [pd.DataFrame()] or the [close] column
    indexed by date. *)
Inductive fetched : Type :=
| EmptyFrame
| CloseColumn (rows : list (Z * f64)).

Definition empty (d : fetched) : bool :=
  match d with
  | EmptyFrame => true
  | CloseColumn rows => match rows with [] => true | _ :: _ => false end
  end.

Definition rows_of (d : fetched) : list (Z * f64) :=
  match d with
  | EmptyFrame => []
  | CloseColumn rows => rows
  end.

(** [fetch_delayed_data]. *)
Definition fetch_delayed_data (ib : IB) (ticker duration bar_size : string)
  : M fetched :=
  let bars := reqHistoricalData ib ticker duration bar_size in
  match bars with
  | [] =>
      print ("No data returned for " ++ ticker) ;;;
      ret EmptyFrame
  | _ :: _ =>
      ret (CloseColumn (map (fun b => (date b, close b)) bars))
  end.

(** [pd.concat([y_data, x_data], axis=1).dropna()]: the dates both columns
    have a value for, in date order (the feed returns bars by increasing
    date), each with its two values. *)
Fixpoint lookup (d : Z) (rows : list (Z * f64)) : option f64 :=
  match rows with
  | [] => None
  | (d', v) :: rows' => if (d =? d')%Z then Some v else lookup d rows'
  end.

Fixpoint concat_dropna (y x : list (Z * f64)) : list (Z * (f64 * f64)) :=
  match y with
  | [] => []
  | (d, vy) :: y' =>
      match lookup d x with
      | Some vx =>
          if F64.is_nan vy || F64.is_nan vx then concat_dropna y' x
          else (d, (vy, vx)) :: concat_dropna y' x
      | None => concat_dropna y' x
      end
  end.

Definition asset_y (combined : list (Z * (f64 * f64))) : series :=
  map (fun row => fst (snd row)) combined.
Definition asset_x (combined : list (Z * (f64 * f64))) : series :=
  map (fun row => snd (snd row)) combined.

(** [plot_strategy]: the charts are drawn by matplotlib; the run records what
    it is given. *)
Definition plot_strategy (zscore spread : series)
    (buy_signals sell_signals : list (nat * f64)) : M unit :=
  ([Plot zscore spread buy_signals sell_signals], Ok tt).

(** The signals of [main]: [zscore[zscore < lower_threshold]] and
    [zscore[zscore > upper_threshold]]. *)
Definition buy_signals (zscore lower_threshold : series) : list (nat * f64) :=
  Series.select zscore (Series.lt zscore lower_threshold).
Definition sell_signals (zscore upper_threshold : series) : list (nat * f64) :=
  Series.select zscore (Series.gt zscore upper_threshold).

Section Script.

(** [np.polyfit(x, y, 1)], numpy's least-squares line: the slope and the
    intercept, or the exception it raises. *)
Variable np_polyfit_1 : series -> series -> result (f64 * f64).

(** [calculate_half_life]. *)
Definition calculate_half_life (spread : series) : result f64 :=
  let spread_lag := Series.dropna (Series.shift1 spread) in
  let delta_spread := Series.dropna (Series.diff spread) in
  match np_polyfit_1 spread_lag delta_spread with
  | Ok (beta, _) =>
      let half_life := F64.div (F64.neg (Fin (ln 2))) beta in
      Ok (py_max1 half_life)
  | Raise e => Raise e
  end.

(** [spread.rolling(window)] accepts an integer window of 0 or more that fits
    a C long; a larger one raises [OverflowError]. *)
Definition rolling_window (window : Z) : result nat :=
  if (window <? 0)%Z then Raise ValueError
  else if (2 ^ 63 <=? window)%Z then Raise OverflowError
  else Ok (Z.to_nat window).

(** [main], from the hedge ratio on (the aligned columns are given). *)
Definition statistics (asset_y asset_x : series) : M unit :=
  hedge_ratio <- computing HedgeRatio (calculate_hedge_ratio asset_y asset_x) ;;
  spread <- computing Spread (Ok (calculate_spread asset_y asset_x hedge_ratio)) ;;
  half_life <- computing HalfLife (calculate_half_life spread) ;;
  window <- lift (py_int half_life) ;;
  zscore <- computing ZScore
              (match rolling_window window with
               | Ok w => Ok (calculate_zscore spread w)
               | Raise e => Raise e
               end) ;;
  thresholds <- computing Thresholds (Ok (adaptive_thresholds spread 60)) ;;
  let upper_threshold := fst thresholds in
  let lower_threshold := snd thresholds in
  buy <- computing Signals (Ok (buy_signals zscore lower_threshold)) ;;
  sell <- lift (Ok (sell_signals zscore upper_threshold)) ;;
  plot_strategy zscore spread buy sell.

(** [main]. *)
Definition main (ib : IB) : M unit :=
  match connect ib with
  | Some e => print ("Failed to connect to IB: " ++ e)
  | None =>
      let ticker1 := "YUM"%string in
      let ticker2 := "MDT"%string in
      let duration := "360 D"%string in
      let bar_size := "10 day"%string in
      y_data <- fetch_delayed_data ib ticker1 duration bar_size ;;
      x_data <- fetch_delayed_data ib ticker2 duration bar_size ;;
      if empty y_data || empty x_data then
        print "Failed to fetch data. Exiting."
      else
        let combined := concat_dropna (rows_of y_data) (rows_of x_data) in
        statistics (asset_y combined) (asset_x combined)
  end.

End Script.

(** ** numpy's least-squares line

    [np.polyfit(x, y, 1)] refuses an empty [x] and arrays of different
    lengths; it scales the two columns [x] and [1] to unit norm and returns
    the least-squares solution of least norm.  When [x] is not constant this
    is the regression line.  When [x] is a non-zero constant [c0] the scaled
    columns coincide up to sign and the solution of least norm splits the
    mean of [y] evenly.  A value that is not finite, or a column of zeros
    (whose scaling divides by zero), leaves [nan] in the matrix and the
    solver gives up. *)
Definition lstsq_line (x y : series) : result (f64 * f64) :=
  match x with
  | [] => Raise TypeError
  | c0 :: _ =>
      if negb (length x =? length y)%nat then Raise TypeError
      else if negb (forallb F64.is_finite x && forallb F64.is_finite y)
      then Raise LinAlgError
      else
        let sxx := dot (center x) (center x) in
        let sxy := dot (center x) (center y) in
        if F64.eqb sxx F64.zero then
          if F64.eqb c0 F64.zero then Raise LinAlgError
          else
            let ybar := Series.mean y in
            Ok (F64.div ybar (F64.mul (Fin 2) c0), F64.div ybar (Fin 2))
        else
          let slope := F64.div sxy sxx in
          Ok (slope, F64.sub (Series.mean y) (F64.mul slope (Series.mean x)))
  end.

(** The script with numpy's [polyfit]. *)
Definition np_calculate_half_life : series -> result f64 :=
  calculate_half_life lstsq_line.
Definition np_main : IB -> M unit := main lstsq_line.

(** ** The statistics in the words of the specification

    Over real numbers: the sample covariance and variance, with divisor
    [n - 1]. *)

Definition Rsum (l : list R) : R := fold_right Rplus 0%R l.

Definition Rmean (l : list R) : R := (Rsum l / INR (length l))%R.

Definition sample_cov (Y X : list R) : R :=
  (Rsum (map (fun p => (fst p - Rmean Y) * (snd p - Rmean X)) (combine Y X))
   / (INR (length Y) - 1))%R.

Definition sample_var (X : list R) : R := sample_cov X X.

(** A Series without missing values. *)
Definition finite (l : list R) : series := map Fin l.

(** The centred dot product behind every entry of [np.cov]. *)
Definition Rcdot (a b : list R) : R :=
  Rsum (map (fun p => ((fst p - Rmean a) * (snd p - Rmean b))%R) (combine a b)).

(** A standard deviation is a square root: never negative. *)
Definition not_negative (a : f64) : Prop :=
  match a with
  | Fin r => (0 <= r)%R
  | NInf => False
  | PInf | NaN => True
  end.

(** The largest [float64] number: a quotient beyond it overflows to an
    infinity. *)
Definition float_max : R := ((2 ^ 53 - 1) * 2 ^ 971)%R.

(** ** Example feeds *)

(** A feed with data for both symbols; the closing prices of MDT, the X of the
    script, are constant. *)
Definition constant_x_feed : IB :=
  {| connect := None;
     reqHistoricalData := fun symbol _ _ =>
       if String.eqb symbol "MDT"
       then [Bar 1 (Fin 5); Bar 2 (Fin 5); Bar 3 (Fin 5)]
       else [Bar 1 (Fin 1); Bar 2 (Fin 2); Bar 3 (Fin 4)] |}.

(** A feed without data for YUM. *)
Definition no_yum_feed : IB :=
  {| connect := None;
     reqHistoricalData := fun symbol _ _ =>
       if String.eqb symbol "MDT"
       then [Bar 1 (Fin 5); Bar 2 (Fin 6)]
       else [] |}.

(** ** The arithmetic in binary64

    The same functions on IEEE 754 binary64 values, with rounding, overflow,
    subnormal numbers and the sign of zero.  The elementwise operations and
    the last two lines of [calculate_half_life] are what the code computes
    bit for bit.  The order in which numpy adds the elements of an array
    (in [np.mean]) and BLAS the products of a dot product (in [np.cov]) is
    theirs to choose and can change the last digit of a sum: the sum and the
    dot product are parameters of [np_cov], and [sum] and [dot] add in index
    order. *)

Module B64.
Import Floats.
Local Open Scope float_scope.

Definition is_nan (v : float) : bool := PrimFloat.is_nan v.

(** [+0.0] or [-0.0]; a zero or [nan]. *)
Definition is_zero (v : float) : bool :=
  match Prim2SF v with
  | S754_zero _ => true
  | _ => false
  end.
Definition zero_or_nan (v : float) : bool :=
  match Prim2SF v with
  | S754_zero _ | S754_nan => true
  | _ => false
  end.

(** An array length as a float. *)
Definition of_Z (n : Z) : float := of_uint63 (Uint63.of_Z n).

(** The sum of an array and the dot product of two arrays, in index
    order. *)
Definition sum (s : list float) : float :=
  match s with
  | [] => 0
  | a :: s' => fold_left PrimFloat.add s' a
  end.

Definition dot (a b : list float) : float :=
  sum (map (fun p => fst p * snd p) (combine a b)).

(** Arithmetic of two Series, label by label; a label that only one operand
    has gets [nan]. *)
Fixpoint map2 (f : float -> float -> float) (a b : list float) : list float :=
  match a, b with
  | [], _ => map (fun _ => nan) b
  | _, [] => map (fun _ => nan) a
  | x :: a', y :: b' => f x y :: map2 f a' b'
  end.

Definition add : list float -> list float -> list float := map2 PrimFloat.add.
Definition sub : list float -> list float -> list float := map2 PrimFloat.sub.

(** [k * s] and [s + k] for a scalar [k]. *)
Definition scale (k : float) (s : list float) : list float :=
  map (fun v => k * v) s.
Definition plus (s : list float) (k : float) : list float :=
  map (fun v => v + k) s.

Definition shift1 (s : list float) : list float :=
  match s with
  | [] => []
  | _ :: _ => nan :: removelast s
  end.
Definition diff (s : list float) : list float := sub s (shift1 s).
Definition dropna (s : list float) : list float :=
  filter (fun v => negb (is_nan v)) s.

(** [np.cov(y, x)]. *)
Record cov_matrix : Type :=
  Cov { c00 : float; c01 : float; c10 : float; c11 : float }.

Section Cov.

(** numpy's sum of an array and its dot product of two arrays. *)
Variable np_sum : list float -> float.
Variable np_dot : list float -> list float -> float.

Definition mean (s : list float) : float :=
  np_sum s / of_Z (Z.of_nat (length s)).

Definition center (s : list float) : list float :=
  let m := mean s in map (fun v => v - m) s.

Definition np_cov (y x : list float) : result cov_matrix :=
  if (length y =? length x)%nat then
    let fact := (Z.of_nat (length y) - 1)%Z in
    let fact := if (fact <=? 0)%Z then 0 else of_Z fact in
    let k := 1 / fact in
    let yc := center y in
    let xc := center x in
    Ok (Cov (np_dot yc yc * k) (np_dot yc xc * k)
            (np_dot xc yc * k) (np_dot xc xc * k))
  else Raise ValueError.

(** [calculate_hedge_ratio]. *)
Definition calculate_hedge_ratio (y x : list float) : result float :=
  match np_cov y x with
  | Ok cov_matrix => Ok (c01 cov_matrix / c11 cov_matrix)
  | Raise e => Raise e
  end.

End Cov.

(** [np.log(2)], the double nearest to [ln 2]. *)
Definition np_log_2 : float := 0x1.62e42fefa39efp-1.

(** Python's [max(1, h)]: [h] when [h > 1], else [1]. *)
Definition py_max1 (h : float) : float := if ltb 1 h then h else 1.

(** Python's [int(h)]: truncation toward zero of [m * 2^e]; an infinity
    raises [OverflowError] and [nan] raises [ValueError]. *)
Definition py_int (h : float) : result Z :=
  match Prim2SF h with
  | S754_zero _ => Ok 0%Z
  | S754_infinity _ => Raise OverflowError
  | S754_nan => Raise ValueError
  | S754_finite s m e =>
      let a := if (0 <=? e)%Z then (Zpos m * 2 ^ e)%Z
               else (Zpos m / 2 ^ (- e))%Z in
      Ok (if s then (- a)%Z else a)
  end.

(** [calculate_spread]. *)
Definition calculate_spread (y x : list float) (hedge_ratio : float)
  : list float :=
  sub y (scale hedge_ratio x).

Section HalfLife.

(** [np.polyfit(x, y, 1)] on binary64 arrays. *)
Variable np_polyfit_1 : list float -> list float -> result (float * float).

(** [calculate_half_life]. *)
Definition calculate_half_life (spread : list float) : result float :=
  let spread_lag := dropna (shift1 spread) in
  let delta_spread := dropna (diff spread) in
  match np_polyfit_1 spread_lag delta_spread with
  | Ok (beta, _) =>
      let half_life := - np_log_2 / beta in
      Ok (py_max1 half_life)
  | Raise e => Raise e
  end.

End HalfLife.

End B64.

(** * Properties *)

(** ** Floats *)

Lemma div_fin (x y : R) : y <> 0%R -> F64.div (Fin x) (Fin y) = Fin (x / y).
Proof.
  intros Hy. unfold F64.div. destruct (Req_EM_T y 0) as [E | _]; [contradiction | reflexivity].
Qed.

Lemma div_zero_zero : F64.div (Fin 0) (Fin 0) = NaN.
Proof.
  unfold F64.div. destruct (Req_EM_T 0 0) as [_ | N]; [reflexivity | contradiction N; reflexivity].
Qed.

Lemma INR_length_nonzero {A : Type} (l : list A) : l <> [] -> INR (length l) <> 0%R.
Proof.
  intros Hl. apply not_0_INR. destruct l; [contradiction | discriminate].
Qed.

(** ** Series without missing values *)

Lemma sum_finite (l : list R) : Series.sum (finite l) = Fin (Rsum l).
Proof.
  induction l as [| v l IH]; [reflexivity |].
  change (Series.sum (finite (v :: l)))
    with (F64.add (Fin v) (Series.sum (finite l))).
  rewrite IH. reflexivity.
Qed.

Lemma finite_length (l : list R) : length (finite l) = length l.
Proof. apply length_map. Qed.

Lemma mean_finite (l : list R) :
  l <> [] -> Series.mean (finite l) = Fin (Rmean l).
Proof.
  intros Hl. unfold Series.mean. rewrite sum_finite, finite_length.
  apply div_fin, INR_length_nonzero, Hl.
Qed.

Lemma center_finite (l : list R) :
  center (finite l) = finite (map (fun v => (v - Rmean l)%R) l).
Proof.
  destruct l as [| v l]; [reflexivity |].
  unfold center. rewrite mean_finite by discriminate.
  unfold finite. rewrite !map_map. apply map_ext. intros a. reflexivity.
Qed.

Lemma dot_finite (a b : list R) :
  dot (finite a) (finite b)
  = Fin (Rsum (map (fun p => (fst p * snd p)%R) (combine a b))).
Proof.
  revert b.
  induction a as [| x a IH]; intros [| y b]; try reflexivity.
  change (dot (finite (x :: a)) (finite (y :: b)))
    with (F64.add (F64.mul (Fin x) (Fin y)) (dot (finite a) (finite b))).
  rewrite IH. reflexivity.
Qed.

Lemma Rsum_centered_products (f g : R -> R) (a b : list R) :
  Rsum (map (fun p => (fst p * snd p)%R) (combine (map f a) (map g b)))
  = Rsum (map (fun p => (f (fst p) * g (snd p))%R) (combine a b)).
Proof.
  revert b. induction a as [| x a IH]; intros [| y b]; simpl; try reflexivity.
  rewrite IH. reflexivity.
Qed.


Lemma dot_center_finite (a b : list R) :
  dot (center (finite a)) (center (finite b)) = Fin (Rcdot a b).
Proof.
  rewrite !center_finite, dot_finite. unfold Rcdot.
  rewrite Rsum_centered_products. reflexivity.
Qed.

Lemma cov_factor (n : nat) :
  (2 <= n)%nat ->
  (if (Z.of_nat n - 1 <=? 0)%Z then 0%Z else (Z.of_nat n - 1)%Z) = (Z.of_nat n - 1)%Z
  /\ IZR (Z.of_nat n - 1) = (INR n - 1)%R
  /\ (INR n - 1)%R <> 0%R.
Proof.
  intros Hn. repeat split.
  - destruct (Z.leb_spec (Z.of_nat n - 1) 0); [lia | reflexivity].
  - rewrite minus_IZR, <- INR_IZR_INZ. reflexivity.
  - apply le_INR in Hn. simpl in Hn. lra.
Qed.

Lemma np_cov_finite (Y X : list R) :
  length Y = length X -> (2 <= length Y)%nat ->
  let k := (1 / (INR (length Y) - 1))%R in
  np_cov (finite Y) (finite X)
  = Ok (Cov (Fin (Rcdot Y Y * k)) (Fin (Rcdot Y X * k))
            (Fin (Rcdot X Y * k)) (Fin (Rcdot X X * k))).
Proof.
  intros Hlen Hn k. unfold np_cov.
  rewrite !finite_length, Hlen, Nat.eqb_refl, <- Hlen.
  destruct (cov_factor (length Y) Hn) as (Hf & Hz & Hnz).
  rewrite Hf, Hz, !dot_center_finite.
  unfold F64.one. rewrite (div_fin 1 _ Hnz). reflexivity.
Qed.

Lemma sample_cov_Rcdot (Y X : list R) :
  sample_cov Y X = (Rcdot Y X / (INR (length Y) - 1))%R.
Proof. reflexivity. Qed.

Lemma variance_Rcdot (X : list R) :
  (2 <= length X)%nat -> sample_var X <> 0%R -> Rcdot X X <> 0%R.
Proof.
  intros Hn Hvar E. apply Hvar. unfold sample_var.
  rewrite sample_cov_Rcdot, E. unfold Rdiv. ring.
Qed.

Lemma hedge_ratio_finite (Y X : list R) :
  length Y = length X -> (2 <= length Y)%nat -> Rcdot X X <> 0%R ->
  calculate_hedge_ratio (finite Y) (finite X)
  = Ok (Fin (Rcdot Y X / Rcdot X X)).
Proof.
  intros Hlen Hn Hxx. unfold calculate_hedge_ratio.
  rewrite (np_cov_finite Y X Hlen Hn). cbn [c01 c11].
  destruct (cov_factor (length Y) Hn) as (_ & _ & Hnz).
  rewrite div_fin.
  - do 2 f_equal. field. split; assumption.
  - intros E. apply Hxx.
    apply Rmult_integral in E. destruct E as [E | E]; [exact E |].
    exfalso. apply (Rinv_neq_0_compat _ Hnz). lra.
Qed.

(** ** The hedge ratio *)



(** ** The spread *)

Lemma map2_length (f : f64 -> f64 -> f64) (a b : series) :
  length a = length b -> length (Series.map2 f a b) = length a.
Proof.
  revert b. induction a as [| x a IH]; intros [| y b] H; try discriminate; [reflexivity |].
  simpl. f_equal. apply IH. simpl in H. lia.
Qed.

Lemma map2_nth_error (f : f64 -> f64 -> f64) (a b : series) (i : nat) (x y : f64) :
  nth_error a i = Some x -> nth_error b i = Some y ->
  nth_error (Series.map2 f a b) i = Some (f x y).
Proof.
  revert b i. induction a as [| x0 a IH]; intros [| y0 b] [| i] Ha Hb;
    simpl in *; try discriminate.
  - congruence.
  - apply IH; assumption.
Qed.

Lemma spread_finite (Y X : list R) (h : R) :
  length Y = length X ->
  calculate_spread (finite Y) (finite X) (Fin h)
  = finite (map (fun p => (fst p - h * snd p)%R) (combine Y X)).
Proof.
  unfold calculate_spread, Series.sub, Series.scale. revert X.
  induction Y as [| y Y IH]; intros [| x X] H; try discriminate; [reflexivity |].
  simpl in H. injection H as H. specialize (IH X H).
  simpl. rewrite IH. reflexivity.
Qed.

(** ** Rolling windows *)

Lemma rolling_length (stat : series -> f64) (w : nat) (s : series) :
  length (Series.rolling stat w s) = length s.
Proof. unfold Series.rolling. rewrite length_map, length_seq. reflexivity. Qed.

Lemma rolling_nth_error (stat : series -> f64) (w : nat) (s : series) (i : nat) :
  (i < length s)%nat ->
  nth_error (Series.rolling stat w s) i
  = Some (match Series.window_at w s i with
          | Some xs => stat xs
          | None => NaN
          end).
Proof.
  intros Hi. unfold Series.rolling.
  rewrite nth_error_map, nth_error_seq.
  destruct (Nat.ltb_spec i (length s)); [reflexivity | lia].
Qed.

Lemma nth_error_defined {A : Type} (l : list A) (i : nat) :
  (i < length l)%nat -> exists v, nth_error l i = Some v.
Proof.
  intros Hi. destruct (nth_error l i) as [v |] eqn:E; [eauto |].
  apply nth_error_None in E. lia.
Qed.

Lemma window_at_short (w : nat) (s : series) (i : nat) :
  (i + 1 < w)%nat -> Series.window_at w s i = None.
Proof.
  intros Hw. unfold Series.window_at.
  destruct (Nat.ltb_spec (i + 1) w); [reflexivity | lia].
Qed.


(** ** The adaptive thresholds *)


Lemma inf_of_sign_pos (r : R) : (0 < r)%R -> F64.inf_of_sign r = PInf.
Proof.
  intros H. unfold F64.inf_of_sign. destruct (Rlt_dec 0 r); [reflexivity | contradiction].
Qed.

Lemma inf_of_sign_neg (r : R) : (r < 0)%R -> F64.inf_of_sign r = NInf.
Proof.
  intros H. unfold F64.inf_of_sign. destruct (Rlt_dec 0 r); [exfalso; lra | reflexivity].
Qed.


Lemma thresholds_nth_error (spread : series) (window i : nat) (sd : f64) :
  nth_error (Series.rolling_std window spread) i = Some sd ->
  nth_error (fst (adaptive_thresholds spread window)) i
  = Some (F64.mul sd (Fin 2))
  /\ nth_error (snd (adaptive_thresholds spread window)) i
     = Some (F64.mul (F64.neg sd) (Fin 2)).
Proof.
  intros Hsd. unfold adaptive_thresholds, Series.times, Series.neg.
  cbn [fst snd]. rewrite !nth_error_map, Hsd. split; reflexivity.
Qed.


(** ** The signals *)

Lemma In_select_from (k : nat) (s : series) (mask : list bool) (j : nat) (v : f64) :
  In (j, v) (Series.select_from k s mask) ->
  exists i, j = (k + i)%nat
            /\ nth_error s i = Some v /\ nth_error mask i = Some true.
Proof.
  revert k mask. induction s as [| x s IH]; intros k [| b mask] H;
    try contradiction.
  simpl in H. destruct b.
  - destruct H as [H | H].
    + injection H as <- <-. exists 0%nat. repeat split. lia.
    + destruct (IH _ _ H) as (i & -> & Hs & Hm).
      exists (S i). repeat split; [lia | assumption | assumption].
  - destruct (IH _ _ H) as (i & -> & Hs & Hm).
    exists (S i). repeat split; [lia | assumption | assumption].
Qed.

Lemma In_index_select (s : series) (mask : list bool) (j : nat) :
  In j (Series.index (Series.select s mask)) ->
  exists v, nth_error s j = Some v /\ nth_error mask j = Some true.
Proof.
  unfold Series.index, Series.select. intros H.
  apply in_map_iff in H. destruct H as ([j' v] & Hj & H). simpl in Hj. subst j'.
  destruct (In_select_from _ _ _ _ _ H) as (i & -> & Hs & Hm).
  exists v. split; assumption.
Qed.

Lemma nth_error_compare (cmp : f64 -> f64 -> bool) (a b : series) (i : nat) (r : bool) :
  nth_error (map (fun p => cmp (fst p) (snd p)) (combine a b)) i = Some r ->
  exists x y, nth_error a i = Some x /\ nth_error b i = Some y /\ cmp x y = r.
Proof.
  revert b i. induction a as [| x a IH]; intros [| y b] [| i] H;
    simpl in H; try discriminate.
  - injection H as <-. exists x, y. repeat split.
  - exact (IH _ _ H).
Qed.

Lemma In_buy_signals (zscore lower : series) (i : nat) :
  In i (Series.index (buy_signals zscore lower)) ->
  exists z lo, nth_error zscore i = Some z /\ nth_error lower i = Some lo
               /\ F64.ltb z lo = true.
Proof.
  intros H. apply In_index_select in H. destruct H as (z & Hz & Hm).
  apply nth_error_compare in Hm. destruct Hm as (x & lo & Hx & Hlo & Hc).
  exists z, lo. repeat split; congruence.
Qed.

Lemma In_sell_signals (zscore upper : series) (i : nat) :
  In i (Series.index (sell_signals zscore upper)) ->
  exists z up, nth_error zscore i = Some z /\ nth_error upper i = Some up
               /\ F64.gtb z up = true.
Proof.
  intros H. apply In_index_select in H. destruct H as (z & Hz & Hm).
  apply nth_error_compare in Hm. destruct Hm as (x & up & Hx & Hup & Hc).
  exists z, up. repeat split; congruence.
Qed.

Lemma sqrt_not_negative (a : f64) : not_negative (F64.sqrt a).
Proof.
  destruct a as [x | | |]; simpl; try exact I.
  destruct (Rlt_dec x 0); simpl; [exact I | apply sqrt_pos].
Qed.

Lemma rolling_std_not_negative (w : nat) (s : series) (i : nat) (sd : f64) :
  nth_error (Series.rolling_std w s) i = Some sd -> not_negative sd.
Proof.
  intros H.
  assert (Hi : (i < length s)%nat).
  { rewrite <- (rolling_length (Series.std 1) w s). apply nth_error_Some.
    unfold Series.rolling_std in H. congruence. }
  unfold Series.rolling_std in H. rewrite rolling_nth_error in H by exact Hi.
  injection H as <-.
  destruct (Series.window_at w s i); [apply sqrt_not_negative | exact I].
Qed.

Lemma ltb_fin (x y : R) : F64.ltb (Fin x) (Fin y) = true -> (x < y)%R.
Proof.
  simpl. destruct (Rlt_dec x y); [trivial | discriminate].
Qed.

Lemma not_below_and_above (z sd : f64) :
  not_negative sd ->
  F64.ltb z (F64.mul (F64.neg sd) (Fin 2)) = true ->
  F64.gtb z (F64.mul sd (Fin 2)) = true ->
  False.
Proof.
  unfold F64.gtb. intros Hsd Hlt Hgt.
  destruct sd as [r | | |]; simpl in Hsd.
  - destruct z as [x | | |]; try discriminate.
    apply ltb_fin in Hlt. apply ltb_fin in Hgt. lra.
  - simpl in Hlt. destruct (Req_EM_T 2 0) as [E | _]; [lra |].
    rewrite (inf_of_sign_neg (- (2))) in Hlt by lra.
    destruct z; discriminate.
  - contradiction.
  - destruct z; discriminate.
Qed.

(** C8: whatever the z-scores, no index is both a buy signal (z-score below
    the lower threshold) and a sell signal (z-score above the upper
    threshold) of the adaptive thresholds of a spread. *)
Theorem signals_disjoint (zscore spread : series) (window i : nat) :
  ~ (In i (Series.index
             (buy_signals zscore (snd (adaptive_thresholds spread window))))
     /\ In i (Series.index
                (sell_signals zscore (fst (adaptive_thresholds spread window))))).
Proof.
  intros [Hbuy Hsell].
  apply In_buy_signals in Hbuy. destruct Hbuy as (z & lo & Hz & Hlo & Hlt).
  apply In_sell_signals in Hsell. destruct Hsell as (z' & up & Hz' & Hup & Hgt).
  assert (z' = z) by congruence. subst z'.
  destruct (nth_error (Series.rolling_std window spread) i) as [sd |] eqn:Hsd.
  - destruct (thresholds_nth_error spread window i sd Hsd) as [Hup' Hlo'].
    assert (up = F64.mul sd (Fin 2)) by congruence.
    assert (lo = F64.mul (F64.neg sd) (Fin 2)) by congruence. subst up lo.
    eapply not_below_and_above; eauto using rolling_std_not_negative.
  - unfold adaptive_thresholds, Series.times in Hup. cbn [fst] in Hup.
    rewrite nth_error_map, Hsd in Hup. discriminate.
Qed.


(** ** The z-score *)

Lemma sub_nan (a : f64) : F64.sub a NaN = NaN.
Proof. destruct a; reflexivity. Qed.

Lemma div_by_nan (a : f64) : F64.div a NaN = NaN.
Proof. destruct a; reflexivity. Qed.

Lemma zscore_length (spread : series) (w : nat) :
  length (calculate_zscore spread w) = length spread.
Proof.
  unfold calculate_zscore, Series.div, Series.sub, Series.rolling_mean,
    Series.rolling_std.
  rewrite map2_length; rewrite map2_length; rewrite ?rolling_length; reflexivity.
Qed.

Lemma zscore_nth_error (spread : series) (w i : nat) (v : f64) :
  nth_error spread i = Some v ->
  nth_error (calculate_zscore spread w) i
  = Some (match Series.window_at w spread i with
          | Some xs => F64.div (F64.sub v (Series.mean xs)) (Series.std 1 xs)
          | None => NaN
          end).
Proof.
  intros Hv.
  assert (Hi : (i < length spread)%nat).
  { apply nth_error_Some. congruence. }
  unfold calculate_zscore, Series.div, Series.sub.
  rewrite (map2_nth_error F64.div _ _ i
             (F64.sub v (match Series.window_at w spread i with
                         | Some xs => Series.mean xs | None => NaN end))
             (match Series.window_at w spread i with
              | Some xs => Series.std 1 xs | None => NaN end)).
  - destruct (Series.window_at w spread i); [reflexivity |].
    rewrite sub_nan. reflexivity.
  - apply map2_nth_error; [exact Hv |].
    unfold Series.rolling_mean. apply rolling_nth_error, Hi.
  - unfold Series.rolling_std. apply rolling_nth_error, Hi.
Qed.


Lemma combine_diagonal {A B : Type} (f : A * A -> B) (l : list A) :
  map f (combine l l) = map (fun v => f (v, v)) l.
Proof. induction l as [| v l IH]; simpl; [reflexivity | rewrite IH; reflexivity]. Qed.

Lemma ssqdm_finite (l : list R) : Series.ssqdm (finite l) = Fin (Rcdot l l).
Proof.
  destruct l as [| v l]; [reflexivity |].
  unfold Series.ssqdm. rewrite mean_finite by discriminate.
  unfold Rcdot. rewrite combine_diagonal. cbn [fst snd].
  rewrite <- sum_finite. f_equal.
  unfold finite. rewrite !map_map. apply map_ext. intros a. reflexivity.
Qed.

Lemma Rsum_nonneg (l : list R) :
  Forall (fun v => (0 <= v)%R) l -> (0 <= Rsum l)%R.
Proof.
  induction 1 as [| v l Hv _ IH]; [simpl; lra |].
  change (Rsum (v :: l)) with (v + Rsum l)%R. lra.
Qed.

Lemma Rcdot_self_nonneg (l : list R) : (0 <= Rcdot l l)%R.
Proof.
  unfold Rcdot. rewrite combine_diagonal. cbn [fst snd].
  apply Rsum_nonneg, Forall_forall. intros v Hv.
  apply in_map_iff in Hv. destruct Hv as (a & <- & _).
  cbv beta. cbn [fst snd]. generalize (a - Rmean l)%R. intros d. nra.
Qed.

Lemma sample_var_nonneg (l : list R) :
  (2 <= length l)%nat -> (0 <= sample_var l)%R.
Proof.
  intros Hn. unfold sample_var. rewrite sample_cov_Rcdot.
  pose proof (Rcdot_self_nonneg l) as H.
  apply le_INR in Hn. simpl in Hn.
  apply Rmult_le_pos; [exact H |].
  apply Rlt_le, Rinv_0_lt_compat. lra.
Qed.

Lemma std_finite (l : list R) :
  (2 <= length l)%nat ->
  Series.std 1 (finite l) = Fin (sqrt (sample_var l)).
Proof.
  intros Hn. unfold Series.std, Series.var. rewrite finite_length.
  destruct (Nat.ltb_spec 1 (length l)); [| lia].
  rewrite ssqdm_finite.
  assert (HR : INR (length l - 1) = (INR (length l) - 1)%R).
  { rewrite minus_INR by lia. reflexivity. }
  rewrite HR. rewrite div_fin.
  - change (Rcdot l l / (INR (length l) - 1))%R with (sample_var l).
    unfold F64.sqrt. pose proof (sample_var_nonneg l Hn).
    destruct (Rlt_dec (sample_var l) 0); [exfalso; lra | reflexivity].
  - apply le_INR in Hn. simpl in Hn. lra.
Qed.






(** ** A zero standard deviation *)














Lemma Rsum_repeat (c : R) (n : nat) : Rsum (repeat c n) = (INR n * c)%R.
Proof.
  induction n as [| n IH]; [simpl; lra |].
  change (Rsum (repeat c (S n))) with (c + Rsum (repeat c n))%R.
  rewrite IH, S_INR. lra.
Qed.

Lemma Rmean_repeat (c : R) (n : nat) : (1 <= n)%nat -> Rmean (repeat c n) = c.
Proof.
  intros Hn. unfold Rmean. rewrite Rsum_repeat, repeat_length.
  field. apply not_0_INR. lia.
Qed.

Lemma sample_var_repeat (c : R) (n : nat) :
  (1 <= n)%nat -> sample_var (repeat c n) = 0%R.
Proof.
  intros Hn. unfold sample_var. rewrite sample_cov_Rcdot.
  unfold Rcdot. rewrite combine_diagonal. cbn [fst snd].
  rewrite Rmean_repeat by exact Hn. rewrite map_repeat, Rsum_repeat.
  unfold Rdiv. ring.
Qed.













(** ** The half-life *)

Lemma ln_2_pos : (0 < ln 2)%R.
Proof. rewrite <- ln_1. apply ln_increasing; lra. Qed.

Lemma py_max1_fin (x : R) :
  exists r, py_max1 (Fin x) = Fin r /\ (1 <= r)%R.
Proof.
  unfold py_max1, F64.gtb, F64.one. simpl.
  destruct (Rlt_dec 1 x); eexists; (split; [reflexivity | lra]).
Qed.

(** In exact arithmetic the clamped half-life of any slope, also of a zero,
    infinite or undefined one, is a number, at least 1; what overflow and
    the sign of zero change is in [Binary64.half_life_window]. *)
Lemma clamped_half_life (beta : f64) :
  exists r, py_max1 (F64.div (F64.neg (Fin (ln 2))) beta) = Fin r /\ (1 <= r)%R.
Proof.
  pose proof ln_2_pos as Hln.
  destruct beta as [b | | |]; simpl.
  - destruct (Req_EM_T b 0) as [_ | _].
    + destruct (Req_EM_T (- ln 2) 0) as [E | _]; [exfalso; lra |].
      rewrite inf_of_sign_neg by lra. exists 1%R. split; [reflexivity | lra].
    + apply py_max1_fin.
  - apply py_max1_fin.
  - apply py_max1_fin.
  - exists 1%R. split; [reflexivity | lra].
Qed.

Lemma trunc_at_least_one (r : R) : (1 <= r)%R -> (1 <= trunc r)%Z.
Proof.
  intros Hr. unfold trunc. destruct (Rle_dec 0 r) as [_ | N]; [| exfalso; lra].
  destruct (base_Int_part r) as [_ Hlow].
  assert (H : (0 < IZR (Int_part r))%R) by lra.
  apply lt_IZR in H. lia.
Qed.


Lemma finite_all_finite (l : list R) : forallb F64.is_finite (finite l) = true.
Proof. induction l as [| v l IH]; [reflexivity | exact IH]. Qed.

Lemma eqb_zero_false (a : R) : a <> 0%R -> F64.eqb (Fin a) F64.zero = false.
Proof.
  intros Ha. unfold F64.eqb, F64.zero.
  destruct (Req_EM_T a 0); [contradiction | reflexivity].
Qed.

(** The regression line of a regular fit. *)
Lemma lstsq_line_regular (x y : list R) :
  x <> [] -> length x = length y -> Rcdot x x <> 0%R ->
  lstsq_line (finite x) (finite y)
  = Ok (Fin (Rcdot x y / Rcdot x x),
        Fin (Rmean y - Rcdot x y / Rcdot x x * Rmean x)).
Proof.
  intros Hx Hlen Hxx.
  assert (Hy : y <> []).
  { intros E. rewrite E in Hlen. destruct x; [contradiction | discriminate]. }
  destruct x as [| c0 x]; [contradiction |].
  unfold lstsq_line. change (finite (c0 :: x)) with (Fin c0 :: finite x).
  change (Fin c0 :: finite x) with (finite (c0 :: x)).
  rewrite !finite_length, Hlen, Nat.eqb_refl, !finite_all_finite.
  cbn [negb andb]. rewrite !dot_center_finite, eqb_zero_false by exact Hxx.
  rewrite div_fin by exact Hxx.
  rewrite !mean_finite by (assumption || discriminate). reflexivity.
Qed.

(** ** Runs *)

Lemma trace_bind_ok {A B : Type} (tr : list event) (a : A) (k : A -> M B) :
  trace (bind (tr, Ok a) k) = tr ++ trace (k a).
Proof. unfold trace, bind. destruct (k a). reflexivity. Qed.

Lemma bind_ret_l {A B : Type} (a : A) (k : A -> M B) :
  bind ([], Ok a) k = k a.
Proof. unfold bind. destruct (k a). reflexivity. Qed.

Lemma trace_bind_raise {A B : Type} (tr : list event) (e : exn) (k : A -> M B) :
  trace (bind (tr, Raise e) k) = tr.
Proof. reflexivity. Qed.

(** Once the hedge ratio is returned, the run computes the spread and calls
    [calculate_half_life], whatever the hedge ratio is. *)
Lemma statistics_trace_prefix
    (np_polyfit_1 : series -> series -> result (f64 * f64))
    (y x : series) (hedge_ratio : f64) :
  calculate_hedge_ratio y x = Ok hedge_ratio ->
  exists rest,
    trace (statistics np_polyfit_1 y x)
    = Computes HedgeRatio :: Computes Spread :: Computes HalfLife :: rest.
Proof.
  intros H. unfold statistics, computing. rewrite H.
  rewrite trace_bind_ok, trace_bind_ok.
  destruct (calculate_half_life np_polyfit_1 (calculate_spread y x hedge_ratio))
    as [half_life | e].
  - rewrite trace_bind_ok. eexists. reflexivity.
  - rewrite trace_bind_raise. exists []. reflexivity.
Qed.

(** ** A constant X *)

Lemma Rsum_zero_terms (l : list R) :
  Forall (fun v => (0 <= v)%R) l -> Rsum l = 0%R -> Forall (fun v => v = 0%R) l.
Proof.
  induction 1 as [| v l Hv Hl IH]; intros Hsum; [constructor |].
  change (Rsum (v :: l)) with (v + Rsum l)%R in Hsum.
  pose proof (Rsum_nonneg l Hl).
  constructor; [lra | apply IH; lra].
Qed.

Lemma Rsum_all_zero (l : list R) : Forall (fun v => v = 0%R) l -> Rsum l = 0%R.
Proof.
  induction 1 as [| v l -> _ IH]; [reflexivity |].
  change (Rsum (0%R :: l)) with (0 + Rsum l)%R. lra.
Qed.

Lemma zero_variance_constant (X : list R) :
  (2 <= length X)%nat -> sample_var X = 0%R ->
  Rcdot X X = 0%R /\ forall x, In x X -> x = Rmean X.
Proof.
  intros Hn Hvar. unfold sample_var in Hvar. rewrite sample_cov_Rcdot in Hvar.
  assert (Hnz : (INR (length X) - 1 <> 0)%R).
  { apply le_INR in Hn. simpl in Hn. lra. }
  assert (Hxx : Rcdot X X = 0%R).
  { apply (Rmult_eq_compat_r (INR (length X) - 1)) in Hvar.
    unfold Rdiv in Hvar.
    rewrite Rmult_assoc, Rinv_l, Rmult_1_r, Rmult_0_l in Hvar by exact Hnz.
    exact Hvar. }
  split; [exact Hxx |].
  unfold Rcdot in Hxx. rewrite combine_diagonal in Hxx. cbn [fst snd] in Hxx.
  apply Rsum_zero_terms in Hxx.
  - rewrite Forall_forall in Hxx. intros x Hx.
    assert (Hsq : ((x - Rmean X) * (x - Rmean X) = 0)%R).
    { apply Hxx. apply in_map_iff. exists x. split; [reflexivity | exact Hx]. }
    generalize dependent (Rmean X). intros m _ Hsq. nra.
  - apply Forall_forall. intros v Hv. apply in_map_iff in Hv.
    destruct Hv as (a & <- & _). generalize (a - Rmean X)%R. intros d. nra.
Qed.

Lemma Rcdot_constant_right (Y X : list R) :
  (forall x, In x X -> x = Rmean X) -> Rcdot Y X = 0%R.
Proof.
  intros Hconst. unfold Rcdot. apply Rsum_all_zero, Forall_forall.
  intros v Hv. apply in_map_iff in Hv. destruct Hv as ([y x] & <- & Hp).
  apply in_combine_r in Hp. cbn [fst snd].
  rewrite <- (Hconst x Hp). ring.
Qed.

Lemma hedge_ratio_constant_x (Y X : list R) :
  length Y = length X -> (2 <= length Y)%nat -> sample_var X = 0%R ->
  calculate_hedge_ratio (finite Y) (finite X) = Ok NaN.
Proof.
  intros Hlen Hn Hvar. unfold calculate_hedge_ratio.
  rewrite (np_cov_finite Y X Hlen Hn). cbn [c01 c11].
  destruct (zero_variance_constant X) as [Hxx Hconst]; [lia | exact Hvar |].
  rewrite Hxx, (Rcdot_constant_right Y X Hconst), Rmult_0_l.
  rewrite div_zero_zero. reflexivity.
Qed.

(** With data for both symbols [main] runs the statistics on the aligned
    columns. *)
Lemma main_reaches_statistics
    (np_polyfit_1 : series -> series -> result (f64 * f64)) (ib : IB) :
  connect ib = None ->
  reqHistoricalData ib "YUM" "360 D" "10 day" <> [] ->
  reqHistoricalData ib "MDT" "360 D" "10 day" <> [] ->
  let rows bars := map (fun b => (date b, close b)) bars in
  let combined :=
    concat_dropna (rows (reqHistoricalData ib "YUM" "360 D" "10 day"))
                  (rows (reqHistoricalData ib "MDT" "360 D" "10 day")) in
  main np_polyfit_1 ib
  = statistics np_polyfit_1 (asset_y combined) (asset_x combined).
Proof.
  intros Hc Hy Hx rows combined. unfold main, fetch_delayed_data. rewrite Hc.
  cbv zeta.
  destruct (reqHistoricalData ib "YUM" "360 D" "10 day") as [| by1 bys] eqn:Ey;
    [contradiction |].
  destruct (reqHistoricalData ib "MDT" "360 D" "10 day") as [| bx1 bxs] eqn:Ex;
    [contradiction |].
  unfold ret. rewrite !bind_ret_l. reflexivity.
Qed.

(** The run on [constant_x_feed]: the hedge ratio is [nan], the spread is
    computed all the same, and the run ends in [calculate_half_life] with the
    [TypeError] of [np.polyfit] on the empty arrays that [dropna] leaves. *)
Lemma constant_x_run :
  trace (np_main constant_x_feed)
  = [Computes HedgeRatio; Computes Spread; Computes HalfLife]
  /\ outcome (np_main constant_x_feed) = Raise TypeError.
Proof.
  unfold np_main. rewrite main_reaches_statistics; try (reflexivity || discriminate).
  cbv zeta.
  change (asset_y _) with (finite [1; 2; 4]%R).
  change (asset_x _) with (finite [5; 5; 5]%R).
  unfold statistics, computing.
  rewrite (hedge_ratio_constant_x [1; 2; 4]%R [5; 5; 5]%R);
    [| reflexivity | simpl; lia | apply (sample_var_repeat 5 3); lia].
  split; reflexivity.
Qed.

(** C1 as stated fails on [constant_x_feed]: the variance of X is zero and
    the run computes the spread. *)
Lemma constant_x_counterexample :
  ~ (sample_var [5; 5; 5]%R = 0%R ->
     ~ In (Computes Spread) (trace (np_main constant_x_feed))).
Proof.
  intros H. apply H.
  - apply (sample_var_repeat 5 3). lia.
  - rewrite (proj1 constant_x_run). simpl. auto.
Qed.

(** ** No data *)

(** C2: when the feed has no bar for one of the two symbols, the run prints
    its messages, the last of which is "Failed to fetch data. Exiting.",
    computes no statistic, plots nothing and returns without an exception. *)
Theorem empty_feed_aborts
    (np_polyfit_1 : series -> series -> result (f64 * f64)) (ib : IB) :
  connect ib = None ->
  reqHistoricalData ib "YUM" "360 D" "10 day" = []
  \/ reqHistoricalData ib "MDT" "360 D" "10 day" = [] ->
  outcome (main np_polyfit_1 ib) = Ok tt
  /\ exists msgs,
       trace (main np_polyfit_1 ib)
       = map Print (msgs ++ ["Failed to fetch data. Exiting."%string]).
Proof.
  intros Hc Hempty. unfold main, fetch_delayed_data. rewrite Hc. cbv zeta.
  destruct (reqHistoricalData ib "YUM" "360 D" "10 day") as [| by1 bys];
    destruct (reqHistoricalData ib "MDT" "360 D" "10 day") as [| bx1 bxs].
  - split; [reflexivity |].
    exists ["No data returned for YUM"%string; "No data returned for MDT"%string].
    reflexivity.
  - split; [reflexivity |].
    exists ["No data returned for YUM"%string]. reflexivity.
  - split; [reflexivity |].
    exists ["No data returned for MDT"%string]. reflexivity.
  - destruct Hempty; discriminate.
Qed.

Lemma empty_feed_aborts_witness :
  outcome (np_main no_yum_feed) = Ok tt
  /\ exists msgs,
       trace (np_main no_yum_feed)
       = map Print (msgs ++ ["Failed to fetch data. Exiting."%string]).
Proof.
  apply (empty_feed_aborts lstsq_line no_yum_feed).
  - reflexivity.
  - left. reflexivity.
Defined.

(** * Further properties of the script *)

(** ** The data feed and the alignment *)

(** [fetch_delayed_data] raises nothing.  Without bars it prints the "No data
    returned" line of the symbol and returns the empty frame; with bars it
    prints nothing and returns one row per bar, in order, with the date and
    the close of the bar.  So its result is empty exactly when the feed has no
    bar. *)
Theorem fetch_empty_iff_no_bars (ib : IB) (ticker duration bar_size : string) :
  let bars := reqHistoricalData ib ticker duration bar_size in
  let run := fetch_delayed_data ib ticker duration bar_size in
  exists data,
    outcome run = Ok data
    /\ (bars = [] ->
        data = EmptyFrame
        /\ trace run = [Print ("No data returned for " ++ ticker)])
    /\ (bars <> [] ->
        trace run = []
        /\ rows_of data = map (fun b => (date b, close b)) bars)
    /\ (empty data = true <-> bars = []).
Proof.
  intros bars run. subst run bars. unfold fetch_delayed_data.
  destruct (reqHistoricalData ib ticker duration bar_size) as [| b bars].
  - exists EmptyFrame. split; [reflexivity |]. split; [| split].
    + intros _. split; reflexivity.
    + intros H. contradiction H. reflexivity.
    + split; reflexivity.
  - eexists. split; [reflexivity |]. split; [| split].
    + discriminate.
    + intros _. split; reflexivity.
    + split; discriminate.
Qed.

Lemma concat_dropna_In (y x : list (Z * f64)) (d : Z) (vy vx : f64) :
  In (d, (vy, vx)) (concat_dropna y x)
  <-> In (d, vy) y /\ lookup d x = Some vx
      /\ F64.is_nan vy = false /\ F64.is_nan vx = false.
Proof.
  induction y as [| [d0 v0] y IH]; simpl.
  - tauto.
  - destruct (lookup d0 x) as [vx0 |] eqn:El.
    + destruct (F64.is_nan v0 || F64.is_nan vx0) eqn:En.
      * rewrite IH. split; [tauto |].
        intros ([E | Hin] & Hl & Hy & Hx); [| tauto].
        injection E as <- <-. rewrite El in Hl. injection Hl as <-.
        rewrite Hy, Hx in En. discriminate.
      * apply orb_false_iff in En. destruct En as [En0 Enx].
        simpl. rewrite IH. split.
        -- intros [E | H]; [| tauto].
           injection E as <- <- <-. tauto.
        -- intros ([E | Hin] & Hl & Hy & Hx); [| tauto].
           injection E as <- <-. rewrite El in Hl. injection Hl as <-.
           left. reflexivity.
    + rewrite IH. split; [tauto |].
      intros ([E | Hin] & Hl & Hy & Hx); [| tauto].
      injection E as <- <-. rewrite El in Hl. discriminate.
Qed.

Lemma concat_dropna_dates (y x : list (Z * f64)) :
  map fst (concat_dropna y x)
  = map fst (filter (fun row =>
                       match lookup (fst row) x with
                       | Some vx => negb (F64.is_nan (snd row) || F64.is_nan vx)
                       | None => false
                       end) y).
Proof.
  induction y as [| [d0 v0] y IH]; simpl; [reflexivity |].
  destruct (lookup d0 x) as [vx0 |]; [| exact IH].
  destruct (F64.is_nan v0 || F64.is_nan vx0); simpl; [exact IH |].
  f_equal. exact IH.
Qed.

Lemma sorted_filter_dates (f : Z * f64 -> bool) (y : list (Z * f64)) :
  StronglySorted Z.lt (map fst y) ->
  StronglySorted Z.lt (map fst (filter f y)).
Proof.
  induction y as [| row y IH]; simpl; intros Hs; [constructor |].
  inversion Hs as [| d ds Hds Hd]; subst.
  destruct (f row); simpl; [| exact (IH Hds)].
  constructor; [exact (IH Hds) |].
  rewrite Forall_forall in Hd |- *. intros d Hin. apply Hd.
  apply in_map_iff in Hin. destruct Hin as (r & <- & Hr).
  apply filter_In in Hr. apply in_map, Hr.
Qed.

(** With one row per date, the value of a date is the value of its row. *)
Lemma lookup_In (x : list (Z * f64)) :
  StronglySorted Z.lt (map fst x) ->
  forall d v, lookup d x = Some v <-> In (d, v) x.
Proof.
  induction x as [| [d' v'] x IH]; simpl; intros Hs d v.
  - split; [discriminate | tauto].
  - inversion Hs as [| d0 ds Hds Hd]; subst.
    destruct (Z.eqb_spec d d') as [-> | Hne].
    + split.
      * intros H. injection H as ->. left. reflexivity.
      * intros [E | Hin]; [injection E as ->; reflexivity |].
        exfalso. rewrite Forall_forall in Hd.
        specialize (Hd d' (in_map fst _ _ Hin)). simpl in Hd. lia.
    + rewrite (IH Hds). split; [tauto |].
      intros [E | Hin]; [| exact Hin]. injection E as -> _. contradiction.
Qed.

(** The alignment of [main], for two columns indexed by strictly increasing
    dates (the bars of the feed, one per date): the two columns of the
    aligned frame have the same length and no missing value; its rows are the
    dates that carry a value that is not [nan] in both columns, with these
    values, by strictly increasing date. *)
Theorem aligned_columns (y x : list (Z * f64)) :
  StronglySorted Z.lt (map fst y) ->
  StronglySorted Z.lt (map fst x) ->
  let combined := concat_dropna y x in
  length (asset_y combined) = length (asset_x combined)
  /\ Forall (fun v => F64.is_nan v = false) (asset_y combined)
  /\ Forall (fun v => F64.is_nan v = false) (asset_x combined)
  /\ (forall d vy vx,
        In (d, (vy, vx)) combined
        <-> In (d, vy) y /\ In (d, vx) x
            /\ F64.is_nan vy = false /\ F64.is_nan vx = false)
  /\ StronglySorted Z.lt (map fst combined).
Proof.
  intros Hy Hx combined. unfold combined. clear combined.
  split; [unfold asset_y, asset_x; rewrite !length_map; reflexivity |].
  split; [| split; [| split]].
  - unfold asset_y. apply Forall_forall. intros v Hv.
    apply in_map_iff in Hv. destruct Hv as ([d [vy vx]] & <- & Hin).
    apply concat_dropna_In in Hin. simpl. tauto.
  - unfold asset_x. apply Forall_forall. intros v Hv.
    apply in_map_iff in Hv. destruct Hv as ([d [vy vx]] & <- & Hin).
    apply concat_dropna_In in Hin. simpl. tauto.
  - intros d vy vx. rewrite concat_dropna_In, (lookup_In x Hx). reflexivity.
  - rewrite concat_dropna_dates. apply sorted_filter_dates, Hy.
Qed.

Lemma aligned_columns_witness :
  In (3%Z, (Fin 3, Fin 30))
     (concat_dropna [(1%Z, Fin 1); (2%Z, NaN); (3%Z, Fin 3)]
                    [(1%Z, Fin 10); (3%Z, Fin 30); (4%Z, Fin 40)])
  /\ length (asset_y (concat_dropna [(1%Z, Fin 1); (2%Z, NaN); (3%Z, Fin 3)]
                        [(1%Z, Fin 10); (3%Z, Fin 30); (4%Z, Fin 40)]))
     = 2%nat.
Proof.
  destruct (aligned_columns [(1%Z, Fin 1); (2%Z, NaN); (3%Z, Fin 3)]
              [(1%Z, Fin 10); (3%Z, Fin 30); (4%Z, Fin 40)])
    as (_ & _ & _ & Hrows & _).
  - simpl. repeat constructor; lia.
  - simpl. repeat constructor; lia.
  - split; [| reflexivity].
    apply Hrows. simpl. repeat split; auto.
Defined.

(** ** The shape of a run *)


Lemma bind_ok {A B : Type} (tr : list event) (a : A) (k : A -> M B) :
  bind (tr, Ok a) k = (tr ++ trace (k a), outcome (k a)).
Proof. unfold bind, trace, outcome. destruct (k a). reflexivity. Qed.

Lemma hedge_ratio_returns (y x : series) :
  length y = length x -> exists h, calculate_hedge_ratio y x = Ok h.
Proof.
  intros H. unfold calculate_hedge_ratio, np_cov.
  rewrite H, Nat.eqb_refl. eexists. reflexivity.
Qed.

Lemma half_life_value
    (np_polyfit_1 : series -> series -> result (f64 * f64))
    (spread : series) (half_life : f64) :
  calculate_half_life np_polyfit_1 spread = Ok half_life ->
  exists r, half_life = Fin r /\ (1 <= r)%R.
Proof.
  unfold calculate_half_life. intros H.
  destruct (np_polyfit_1 _ _) as [[beta intercept] | e]; [| discriminate].
  destruct (clamped_half_life beta) as (r & Hclamp & Hr).
  cbv zeta in H. rewrite Hclamp in H. injection H as <-.
  exists r. split; [reflexivity | exact Hr].
Qed.

(** The statistics of [main] on two columns of the same length: the hedge
    ratio is returned, and either [calculate_half_life] raises and the run
    ends there, or the window does not fit [rolling] and the run ends with an
    [OverflowError], or every later step returns and the run ends with the
    plot. *)
Lemma statistics_run
    (np_polyfit_1 : series -> series -> result (f64 * f64)) (y x : series) :
  length y = length x ->
  exists hedge_ratio,
    calculate_hedge_ratio y x = Ok hedge_ratio
    /\ let spread := calculate_spread y x hedge_ratio in
       match calculate_half_life np_polyfit_1 spread with
       | Raise e =>
           statistics np_polyfit_1 y x
           = ([Computes HedgeRatio; Computes Spread; Computes HalfLife], Raise e)
       | Ok half_life =>
           exists window,
             (1 <= window)%Z
             /\ py_int half_life = Ok window
             /\ ((2 ^ 63 <= window)%Z ->
                 statistics np_polyfit_1 y x
                 = ([Computes HedgeRatio; Computes Spread; Computes HalfLife;
                     Computes ZScore],
                    Raise OverflowError))
             /\ ((window < 2 ^ 63)%Z ->
                 let zscore := calculate_zscore spread (Z.to_nat window) in
                 let thresholds := adaptive_thresholds spread 60 in
                 statistics np_polyfit_1 y x
                 = ([Computes HedgeRatio; Computes Spread; Computes HalfLife;
                     Computes ZScore; Computes Thresholds; Computes Signals;
                     Plot zscore spread
                          (buy_signals zscore (snd thresholds))
                          (sell_signals zscore (fst thresholds))],
                    Ok tt))
       end.
Proof.
  intros Hlen. destruct (hedge_ratio_returns y x Hlen) as [h Hh].
  exists h. split; [exact Hh |]. cbv zeta.
  unfold statistics, computing, lift. rewrite Hh, !bind_ok.
  destruct (calculate_half_life np_polyfit_1 (calculate_spread y x h))
    as [half_life | e] eqn:Ehl; [| reflexivity].
  destruct (half_life_value _ _ _ Ehl) as (r & -> & Hr).
  pose proof (trunc_at_least_one r Hr) as Hw.
  exists (trunc r).
  split; [exact Hw |]. split; [reflexivity |].
  rewrite bind_ok. unfold py_int. rewrite bind_ok.
  unfold rolling_window. destruct (Z.ltb_spec (trunc r) 0); [lia |].
  destruct (Z.leb_spec (2 ^ 63) (trunc r)); split; intros; try lia.
  - reflexivity.
  - rewrite !bind_ok. reflexivity.
Qed.



(** ** The half-life *)

Lemma ln_2_lt_1 : (ln 2 < 1)%R.
Proof.
  rewrite <- (ln_exp 1). apply ln_increasing; [lra |].
  pose proof (exp_ineq1 1). lra.
Qed.

Lemma float_max_large : (2 <= float_max)%R.
Proof.
  unfold float_max.
  assert (H53 : (2 <= 2 ^ 53 - 1)%R) by (simpl; lra).
  assert (H971 : (1 <= 2 ^ 971)%R) by (apply pow_R1_Rle; lra).
  nra.
Qed.

(** The floor of the half-life: the half-life is [-ln 2 / b] when the slope
    is a number [b] with [-ln 2 < b < 0] and the quotient does not
    overflow, and 1 when the slope is positive, [-ln 2] or less, [nan] or
    infinite.  (A slope of zero gives 1 or, for [-0.0], an infinite
    half-life; the sign of zero is not tracked.) *)
Theorem half_life_floor
    (np_polyfit_1 : series -> series -> result (f64 * f64))
    (spread : series) (beta intercept : f64) :
  np_polyfit_1 (Series.dropna (Series.shift1 spread))
               (Series.dropna (Series.diff spread))
  = Ok (beta, intercept) ->
  (forall b, beta = Fin b -> (- ln 2 < b < 0)%R ->
             (- ln 2 / b <= float_max)%R ->
             calculate_half_life np_polyfit_1 spread = Ok (Fin (- ln 2 / b)))
  /\ ((forall b, beta = Fin b -> (0 < b \/ b <= - ln 2)%R) ->
      calculate_half_life np_polyfit_1 spread = Ok (Fin 1)).
Proof.
  intros Hfit. unfold calculate_half_life. rewrite Hfit. cbv zeta.
  pose proof ln_2_pos as Hln.
  unfold py_max1, F64.gtb, F64.one.
  destruct beta as [b | | |]; simpl.
  - destruct (Req_EM_T b 0) as [-> | Hb].
    + destruct (Req_EM_T (- ln 2) 0) as [E | _]; [exfalso; lra |].
      rewrite inf_of_sign_neg by lra. simpl.
      split; [| reflexivity].
      intros b' E H. injection E as <-. exfalso. lra.
    + simpl. destruct (Rlt_dec 1 (- ln 2 / b)) as [Hgt | Hle].
      * assert (Hneg : (b < 0)%R).
        { destruct (Rlt_dec b 0) as [| Hpos]; [assumption |]. exfalso.
          assert (0 < b)%R by lra.
          assert (- ln 2 / b < 0)%R.
          { unfold Rdiv. apply Rmult_neg_pos; [lra | apply Rinv_0_lt_compat; assumption]. }
          lra. }
        assert (Hlow : (- ln 2 < b)%R).
        { apply (Rmult_lt_gt_compat_neg_l b) in Hgt; [| exact Hneg].
          replace (b * (- ln 2 / b))%R with (- ln 2)%R in Hgt by (field; exact Hb).
          lra. }
        split.
        -- intros b' E _ _. injection E as <-. reflexivity.
        -- intros H. exfalso. destruct (H b eq_refl); lra.
      * split; [| reflexivity].
        intros b' E [Hlow Hneg] _. injection E as <-. exfalso. apply Hle.
        apply (Rmult_lt_reg_r (- b)); [lra |].
        replace (- ln 2 / b * - b)%R with (ln 2) by (field; exact Hb). lra.
  - destruct (Rlt_dec 1 0); [exfalso; lra |].
    split; [discriminate | reflexivity].
  - destruct (Rlt_dec 1 0); [exfalso; lra |].
    split; [discriminate | reflexivity].
  - split; [discriminate | reflexivity].
Qed.

Lemma example_slope :
  (Rcdot [4; 2]%R [2 - 4; 1 - 2]%R / Rcdot [4; 2]%R [4; 2]%R = - / 2)%R.
Proof. unfold Rcdot, Rmean. simpl. field. Qed.

Lemma half_life_floor_witness :
  np_calculate_half_life (finite [4; 2; 1]%R) = Ok (Fin (- ln 2 / (- / 2))).
Proof.
  assert (Hfit : lstsq_line (Series.dropna (Series.shift1 (finite [4; 2; 1]%R)))
                            (Series.dropna (Series.diff (finite [4; 2; 1]%R)))
                 = Ok (Fin (- / 2),
                       Fin (Rmean [2 - 4; 1 - 2]%R - - / 2 * Rmean [4; 2]%R))).
  { change (Series.dropna (Series.shift1 (finite [4; 2; 1]%R)))
      with (finite [4; 2]%R).
    change (Series.dropna (Series.diff (finite [4; 2; 1]%R)))
      with (finite [2 - 4; 1 - 2]%R).
    rewrite lstsq_line_regular; [| discriminate | reflexivity |].
    - rewrite example_slope. reflexivity.
    - unfold Rcdot, Rmean. simpl. lra. }
  pose proof ln_lt_2 as Hlow. pose proof ln_2_lt_1 as Hup.
  pose proof float_max_large as Hmax.
  apply (proj1 (half_life_floor lstsq_line (finite [4; 2; 1]%R) _ _ Hfit)
               (- / 2)%R eq_refl).
  - lra.
  - replace (- ln 2 / (- / 2))%R with (2 * ln 2)%R by field. lra.
Defined.

Lemma removelast_finite (l : list R) :
  removelast (finite l) = finite (removelast l).
Proof.
  induction l as [| a l IH]; [reflexivity |].
  destruct l as [| b l]; [reflexivity |].
  change (removelast (finite (a :: b :: l)))
    with (Fin a :: removelast (finite (b :: l))).
  rewrite IH. reflexivity.
Qed.

Lemma dropna_finite (l : list R) : Series.dropna (finite l) = finite l.
Proof.
  induction l as [| a l IH]; [reflexivity |].
  change (Series.dropna (finite (a :: l))) with (Fin a :: Series.dropna (finite l)).
  rewrite IH. reflexivity.
Qed.

Lemma sub_successive (a : R) (l : list R) :
  Series.map2 F64.sub (finite l) (finite (removelast (a :: l)))
  = finite (map (fun p => (snd p - fst p)%R) (combine (a :: l) l)).
Proof.
  revert a. induction l as [| b l IH]; intros a; [reflexivity |].
  change (removelast (a :: b :: l)) with (a :: removelast (b :: l)).
  change (Series.map2 F64.sub (finite (b :: l)) (finite (a :: removelast (b :: l))))
    with (Fin (b - a) :: Series.map2 F64.sub (finite l) (finite (removelast (b :: l)))).
  rewrite IH. reflexivity.
Qed.

Lemma length_removelast_pred {A : Type} (l : list A) :
  length (removelast l) = (length l - 1)%nat.
Proof.
  induction l as [| a l IH]; [reflexivity |].
  destruct l as [| b l]; [reflexivity |].
  change (removelast (a :: b :: l)) with (a :: removelast (b :: l)).
  simpl length in *. rewrite IH. lia.
Qed.

Lemma half_life_regression_arrays_eq (S : list R) :
  Series.dropna (Series.shift1 (finite S)) = finite (removelast S)
  /\ Series.dropna (Series.diff (finite S))
     = finite (map (fun p => (snd p - fst p)%R) (combine S (tl S)))
  /\ length (removelast S)
     = length (map (fun p => (snd p - fst p)%R) (combine S (tl S))).
Proof.
  split; [| split].
  - destruct S as [| a l]; [reflexivity |].
    change (Series.shift1 (finite (a :: l)))
      with (NaN :: removelast (finite (a :: l))).
    change (Series.dropna (NaN :: removelast (finite (a :: l))))
      with (Series.dropna (removelast (finite (a :: l)))).
    rewrite removelast_finite. apply dropna_finite.
  - destruct S as [| a l]; [reflexivity |].
    unfold Series.diff, Series.sub.
    change (Series.shift1 (finite (a :: l)))
      with (NaN :: removelast (finite (a :: l))).
    change (Series.map2 F64.sub (finite (a :: l))
              (NaN :: removelast (finite (a :: l))))
      with (NaN :: Series.map2 F64.sub (finite l) (removelast (finite (a :: l)))).
    change (Series.dropna
              (NaN :: Series.map2 F64.sub (finite l) (removelast (finite (a :: l)))))
      with (Series.dropna
              (Series.map2 F64.sub (finite l) (removelast (finite (a :: l))))).
    rewrite removelast_finite, sub_successive. apply dropna_finite.
  - rewrite length_map, length_combine, length_removelast_pred.
    destruct S as [| a l]; cbn [length tl]; lia.
Qed.

(** The two arrays [calculate_half_life] hands to [np.polyfit], on a spread
    without missing values: the spread without its last value, and the
    differences of successive values.  Both have one entry less than the
    spread, so [np.polyfit] is never given arrays of different lengths. *)
Theorem half_life_regression_arrays (S : list R) :
  let spread_lag := Series.dropna (Series.shift1 (finite S)) in
  let delta_spread := Series.dropna (Series.diff (finite S)) in
  spread_lag = finite (removelast S)
  /\ delta_spread = finite (map (fun p => (snd p - fst p)%R) (combine S (tl S)))
  /\ length spread_lag = (length S - 1)%nat
  /\ length delta_spread = (length S - 1)%nat.
Proof.
  intros spread_lag delta_spread. subst spread_lag delta_spread.
  destruct (half_life_regression_arrays_eq S) as (Hlag & Hdelta & Hlen).
  rewrite Hlag, Hdelta, !finite_length, <- Hlen.
  repeat split. all: apply length_removelast_pred.
Qed.

Lemma no_lagged_values (spread : series) :
  Forall (fun v => v = NaN) (removelast spread) ->
  Series.dropna (Series.shift1 spread) = [].
Proof.
  intros Hnan. destruct spread as [| a l]; [reflexivity |].
  change (Series.shift1 (a :: l)) with (NaN :: removelast (a :: l)).
  change (Series.dropna (NaN :: removelast (a :: l)))
    with (Series.dropna (removelast (a :: l))).
  induction Hnan as [| v t -> _ IH]; [reflexivity | exact IH].
Qed.

(** [calculate_half_life] needs two values to regress on: when every value of
    the spread before the last is [nan] -- an empty spread, a spread of one
    value, a spread that is [nan] throughout -- [dropna] leaves nothing of
    the lagged spread and numpy's [polyfit] raises [TypeError]. *)
Theorem half_life_needs_lagged_values (spread : series) :
  Forall (fun v => v = NaN) (removelast spread) ->
  np_calculate_half_life spread = Raise TypeError.
Proof.
  intros Hnan. unfold np_calculate_half_life, calculate_half_life.
  rewrite (no_lagged_values spread Hnan).
  reflexivity.
Qed.

Lemma half_life_needs_lagged_values_witness :
  np_calculate_half_life [Fin 3] = Raise TypeError.
Proof.
  apply (half_life_needs_lagged_values [Fin 3]). constructor.
Defined.




(** ** The signals *)

Lemma select_from_complete (k : nat) (s : series) (mask : list bool) (i : nat) (v : f64) :
  nth_error s i = Some v -> nth_error mask i = Some true ->
  In ((k + i)%nat, v) (Series.select_from k s mask).
Proof.
  revert k mask i. induction s as [| x s IH]; intros k [| b mask] [| i] Hs Hm;
    simpl in *; try discriminate.
  - injection Hs as ->. injection Hm as ->. left. f_equal. lia.
  - replace (k + S i)%nat with (S k + i)%nat by lia.
    destruct b; [right |]; apply IH; assumption.
Qed.

Lemma In_select (s : series) (mask : list bool) (i : nat) (v : f64) :
  In (i, v) (Series.select s mask)
  <-> nth_error s i = Some v /\ nth_error mask i = Some true.
Proof.
  unfold Series.select. split.
  - intros H. destruct (In_select_from _ _ _ _ _ H) as (j & -> & Hs & Hm).
    split; assumption.
  - intros [Hs Hm]. apply (select_from_complete 0 _ _ _ _ Hs Hm).
Qed.

Lemma nth_error_compare_complete (cmp : f64 -> f64 -> bool) (a b : series)
    (i : nat) (x y : f64) :
  nth_error a i = Some x -> nth_error b i = Some y ->
  nth_error (map (fun p => cmp (fst p) (snd p)) (combine a b)) i
  = Some (cmp x y).
Proof.
  revert b i. induction a as [| x0 a IH]; intros [| y0 b] [| i] Ha Hb;
    simpl in *; try discriminate.
  - congruence.
  - apply IH; assumption.
Qed.

Lemma In_compare_select (cmp : f64 -> f64 -> bool) (zscore threshold : series)
    (i : nat) (v : f64) :
  In (i, v) (Series.select zscore
               (map (fun p => cmp (fst p) (snd p)) (combine zscore threshold)))
  <-> nth_error zscore i = Some v
      /\ exists t, nth_error threshold i = Some t /\ cmp v t = true.
Proof.
  rewrite In_select. split.
  - intros [Hz Hm]. split; [exact Hz |].
    apply nth_error_compare in Hm. destruct Hm as (x & t & Hx & Ht & Hc).
    exists t. split; [exact Ht |]. congruence.
  - intros (Hz & t & Ht & Hc). split; [exact Hz |].
    rewrite (nth_error_compare_complete cmp _ _ _ _ _ Hz Ht), Hc. reflexivity.
Qed.

(** The selections of [main] are exact: the buy signals are the entries of
    the z-score, each with its index, that are below the lower threshold at
    the same index, and the sell signals those above the upper threshold; an
    entry that is [nan], or whose threshold is [nan], is in neither. *)
Theorem signals_exact (zscore lower upper : series) (i : nat) (v : f64) :
  (In (i, v) (buy_signals zscore lower)
   <-> nth_error zscore i = Some v
       /\ exists lo, nth_error lower i = Some lo /\ F64.ltb v lo = true)
  /\ (In (i, v) (sell_signals zscore upper)
      <-> nth_error zscore i = Some v
          /\ exists up, nth_error upper i = Some up /\ F64.gtb v up = true)
  /\ (v = NaN ->
      ~ In (i, v) (buy_signals zscore lower)
      /\ ~ In (i, v) (sell_signals zscore upper))
  /\ (nth_error lower i = Some NaN -> ~ In (i, v) (buy_signals zscore lower))
  /\ (nth_error upper i = Some NaN -> ~ In (i, v) (sell_signals zscore upper)).
Proof.
  pose proof (In_compare_select F64.ltb zscore lower i v) as Hbuy.
  pose proof (In_compare_select F64.gtb zscore upper i v) as Hsell.
  split; [exact Hbuy |]. split; [exact Hsell |]. split; [| split].
  - intros ->. split; intros H.
    + apply Hbuy in H. destruct H as (_ & lo & _ & Hc). discriminate.
    + apply Hsell in H. destruct H as (_ & up & _ & Hc).
      unfold F64.gtb in Hc. destruct up; discriminate.
  - intros Hlo H. apply Hbuy in H. destruct H as (_ & lo & Hlo' & Hc).
    assert (lo = NaN) by congruence. subst lo. destruct v; discriminate.
  - intros Hup H. apply Hsell in H. destruct H as (_ & up & Hup' & Hc).
    assert (up = NaN) by congruence. subst up. discriminate.
Qed.

Lemma below_lower_negative (v sd : f64) :
  not_negative sd ->
  F64.ltb v (F64.mul (F64.neg sd) (Fin 2)) = true ->
  F64.ltb v (Fin 0) = true.
Proof.
  intros Hsd Hlt. destruct sd as [r | | |]; simpl in Hsd.
  - destruct v as [x | | |]; try discriminate; [| reflexivity].
    apply ltb_fin in Hlt. simpl.
    destruct (Rlt_dec x 0); [reflexivity | exfalso; lra].
  - simpl in Hlt. destruct (Req_EM_T 2 0) as [E | _]; [exfalso; lra |].
    rewrite (inf_of_sign_neg (- (2))) in Hlt by lra. destruct v; discriminate.
  - contradiction.
  - destruct v; discriminate.
Qed.

Lemma above_upper_positive (v sd : f64) :
  not_negative sd ->
  F64.gtb v (F64.mul sd (Fin 2)) = true ->
  F64.gtb v (Fin 0) = true.
Proof.
  unfold F64.gtb. intros Hsd Hgt. destruct sd as [r | | |]; simpl in Hsd.
  - destruct v as [x | | |]; try discriminate; [| reflexivity].
    apply ltb_fin in Hgt. simpl.
    destruct (Rlt_dec 0 x); [reflexivity | exfalso; lra].
  - simpl in Hgt. destruct (Req_EM_T 2 0) as [E | _]; [exfalso; lra |].
    rewrite (inf_of_sign_pos 2) in Hgt by lra. destruct v; discriminate.
  - contradiction.
  - discriminate.
Qed.

Lemma threshold_of_std (spread : series) (window i : nat) (t : f64) :
  nth_error (fst (adaptive_thresholds spread window)) i = Some t
  \/ nth_error (snd (adaptive_thresholds spread window)) i = Some t ->
  exists sd,
    nth_error (Series.rolling_std window spread) i = Some sd
    /\ nth_error (fst (adaptive_thresholds spread window)) i
       = Some (F64.mul sd (Fin 2))
    /\ nth_error (snd (adaptive_thresholds spread window)) i
       = Some (F64.mul (F64.neg sd) (Fin 2)).
Proof.
  intros H.
  destruct (nth_error (Series.rolling_std window spread) i) as [sd |] eqn:Hsd.
  - exists sd. split; [reflexivity |]. apply thresholds_nth_error, Hsd.
  - exfalso. unfold adaptive_thresholds, Series.times, Series.neg in H.
    cbn [fst snd] in H. rewrite !nth_error_map, Hsd in H.
    destruct H; discriminate.
Qed.

(** Against the adaptive thresholds a buy signal is a negative z-score and a
    sell signal a positive one: the lower threshold is never above zero and
    the upper never below. *)
Theorem signal_signs (zscore spread : series) (window i : nat) (v : f64) :
  (In (i, v) (buy_signals zscore (snd (adaptive_thresholds spread window))) ->
   F64.ltb v (Fin 0) = true)
  /\ (In (i, v) (sell_signals zscore (fst (adaptive_thresholds spread window))) ->
      F64.gtb v (Fin 0) = true).
Proof.
  split; intros H.
  - apply In_compare_select in H. destruct H as (_ & lo & Hlo & Hc).
    destruct (threshold_of_std spread window i lo (or_intror Hlo))
      as (sd & Hsd & _ & Hlo').
    assert (lo = F64.mul (F64.neg sd) (Fin 2)) by congruence. subst lo.
    apply (below_lower_negative v sd); [| exact Hc].
    apply (rolling_std_not_negative _ _ _ _ Hsd).
  - apply In_compare_select in H. destruct H as (_ & up & Hup & Hc).
    destruct (threshold_of_std spread window i up (or_introl Hup))
      as (sd & Hsd & Hup' & _).
    assert (up = F64.mul sd (Fin 2)) by congruence. subst up.
    apply (above_upper_positive v sd); [| exact Hc].
    apply (rolling_std_not_negative _ _ _ _ Hsd).
Qed.

Lemma example_signal_var : sample_var [0; 0; 3 / 10]%R = (3 / 100)%R.
Proof. unfold sample_var, sample_cov, Rmean. simpl. field. Qed.

Lemma example_signal_std :
  nth_error (Series.rolling_std 3 (finite [0; 0; 3 / 10]%R)) 2
  = Some (Fin (sqrt (3 / 100))).
Proof.
  unfold Series.rolling_std. rewrite rolling_nth_error by (simpl; lia).
  change (Series.window_at 3 (finite [0; 0; 3 / 10]%R) 2)
    with (Some (finite [0; 0; 3 / 10]%R)).
  cbv iota. rewrite std_finite by (simpl; lia).
  rewrite example_signal_var. reflexivity.
Qed.

Lemma example_signal_zscore :
  nth_error (calculate_zscore (finite [0; 0; 3 / 10]%R) 3) 2
  = Some (Fin ((3 / 10 - / 10) / sqrt (3 / 100))).
Proof.
  rewrite (zscore_nth_error _ _ _ (Fin (3 / 10))) by reflexivity.
  change (Series.window_at 3 (finite [0; 0; 3 / 10]%R) 2)
    with (Some (finite [0; 0; 3 / 10]%R)).
  cbv iota. rewrite mean_finite by discriminate.
  rewrite std_finite by (simpl; lia). rewrite example_signal_var.
  assert (Hm : Rmean [0; 0; 3 / 10]%R = (/ 10)%R).
  { unfold Rmean. simpl. field. }
  rewrite Hm. change (F64.sub (Fin (3 / 10)) (Fin (/ 10)))
    with (Fin (3 / 10 - / 10)).
  rewrite div_fin; [reflexivity |].
  pose proof (sqrt_lt_R0 (3 / 100)). lra.
Qed.

Lemma signal_signs_witness :
  In (2%nat, Fin ((3 / 10 - / 10) / sqrt (3 / 100)))
     (sell_signals (calculate_zscore (finite [0; 0; 3 / 10]%R) 3)
        (fst (adaptive_thresholds (finite [0; 0; 3 / 10]%R) 3)))
  /\ F64.gtb (Fin ((3 / 10 - / 10) / sqrt (3 / 100))) (Fin 0) = true.
Proof.
  assert (H : In (2%nat, Fin ((3 / 10 - / 10) / sqrt (3 / 100)))
                (sell_signals (calculate_zscore (finite [0; 0; 3 / 10]%R) 3)
                   (fst (adaptive_thresholds (finite [0; 0; 3 / 10]%R) 3)))).
  { apply In_compare_select. split; [exact example_signal_zscore |].
    exists (F64.mul (Fin (sqrt (3 / 100))) (Fin 2)). split.
    - apply thresholds_nth_error, example_signal_std.
    - assert (Hq : (0 < sqrt (3 / 100))%R) by (apply sqrt_lt_R0; lra).
      assert (Hqq : (sqrt (3 / 100) * sqrt (3 / 100) = 3 / 100)%R)
        by (apply sqrt_sqrt; lra).
      assert (Hz : ((3 / 10 - / 10) / sqrt (3 / 100)
                    = 20 / 3 * sqrt (3 / 100))%R).
      { apply Rmult_eq_reg_r with (sqrt (3 / 100)); [| lra].
        unfold Rdiv at 1. rewrite Rmult_assoc, Rinv_l by lra. lra. }
      unfold F64.gtb. simpl. rewrite Hz.
      destruct (Rlt_dec (sqrt (3 / 100) * 2) (20 / 3 * sqrt (3 / 100)));
        [reflexivity | exfalso; lra]. }
  split; [exact H |].
  exact (proj2 (signal_signs (calculate_zscore (finite [0; 0; 3 / 10]%R) 3)
                  (finite [0; 0; 3 / 10]%R) 3 2
                  (Fin ((3 / 10 - / 10) / sqrt (3 / 100)))) H).
Defined.

Lemma threshold_nan_before_window (spread : series) (window i : nat) (t : f64) :
  (i + 1 < window)%nat ->
  nth_error (fst (adaptive_thresholds spread window)) i = Some t
  \/ nth_error (snd (adaptive_thresholds spread window)) i = Some t ->
  t = NaN.
Proof.
  intros Hshort Ht.
  destruct (threshold_of_std spread window i t Ht) as (sd & Hsd & Hup & Hlo).
  assert (Hi : (i < length spread)%nat).
  { rewrite <- (rolling_length (Series.std 1) window spread).
    apply nth_error_Some. unfold Series.rolling_std in Hsd. congruence. }
  unfold Series.rolling_std in Hsd.
  rewrite rolling_nth_error, window_at_short in Hsd by assumption.
  injection Hsd as <-.
  change (F64.mul NaN (Fin 2)) with NaN in Hup.
  change (F64.mul (F64.neg NaN) (Fin 2)) with NaN in Hlo.
  destruct Ht; congruence.
Qed.

(** The thresholds need a full window: no index before [window - 1] (59 in
    [main]) is a buy or a sell signal, whatever the z-score. *)
Theorem no_signal_before_threshold_window
    (zscore spread : series) (window i : nat) :
  (i + 1 < window)%nat ->
  ~ In i (Series.index
            (buy_signals zscore (snd (adaptive_thresholds spread window))))
  /\ ~ In i (Series.index
               (sell_signals zscore (fst (adaptive_thresholds spread window)))).
Proof.
  intros Hshort. split; intros H.
  - apply In_buy_signals in H. destruct H as (z & lo & _ & Hlo & Hc).
    rewrite (threshold_nan_before_window spread window i lo Hshort (or_intror Hlo))
      in Hc.
    destruct z; discriminate.
  - apply In_sell_signals in H. destruct H as (z & up & _ & Hup & Hc).
    rewrite (threshold_nan_before_window spread window i up Hshort (or_introl Hup))
      in Hc.
    discriminate.
Qed.

Lemma no_signal_before_threshold_window_witness :
  ~ In 1%nat (Series.index
                (buy_signals [NaN; Fin (- (5))]
                   (snd (adaptive_thresholds (finite [3; 3; 3]%R) 60))))
  /\ ~ In 1%nat (Series.index
                   (sell_signals [NaN; Fin (- (5))]
                      (fst (adaptive_thresholds (finite [3; 3; 3]%R) 60)))).
Proof.
  apply (no_signal_before_threshold_window
           [NaN; Fin (- (5))] (finite [3; 3; 3]%R) 60 1).
  lia.
Defined.








(** ** The plot *)

Lemma loc_defined (s : series) (labels : list nat) :
  (forall i, In i labels -> (i < length s)%nat) ->
  exists values, Series.loc s labels = Some values
                 /\ length values = length labels.
Proof.
  induction labels as [| i labels IH]; intros H.
  - exists []. split; reflexivity.
  - destruct IH as (vs & Hvs & Hl).
    { intros j Hj. apply H. right. exact Hj. }
    destruct (nth_error_defined s i) as [v Hv].
    { apply H. left. reflexivity. }
    exists (v :: vs). simpl. rewrite Hv, Hvs. split; [reflexivity |].
    simpl. rewrite Hl. reflexivity.
Qed.

(** [plot_strategy] looks the spread up at the labels of the signals,
    [spread[buy_signals.index]] and [spread[sell_signals.index]]: on the
    z-score of the spread every such label is a label of the spread, so both
    lookups find a value for every signal, whatever the thresholds. *)
Theorem signal_labels_in_spread (spread lower upper : series) (window : nat) :
  let zscore := calculate_zscore spread window in
  (exists values,
      Series.loc spread (Series.index (buy_signals zscore lower)) = Some values
      /\ length values = length (buy_signals zscore lower))
  /\ (exists values,
         Series.loc spread (Series.index (sell_signals zscore upper)) = Some values
         /\ length values = length (sell_signals zscore upper)).
Proof.
  intros zscore.
  assert (Hlen : length zscore = length spread) by apply zscore_length.
  split.
  - destruct (loc_defined spread (Series.index (buy_signals zscore lower)))
      as (vs & Hvs & Hl).
    { intros i Hi. apply In_buy_signals in Hi. destruct Hi as (z & _ & Hz & _).
      rewrite <- Hlen. apply nth_error_Some. congruence. }
    exists vs. split; [exact Hvs |].
    rewrite Hl. unfold Series.index. apply length_map.
  - destruct (loc_defined spread (Series.index (sell_signals zscore upper)))
      as (vs & Hvs & Hl).
    { intros i Hi. apply In_sell_signals in Hi. destruct Hi as (z & _ & Hz & _).
      rewrite <- Hlen. apply nth_error_Some. congruence. }
    exists vs. split; [exact Hvs |].
    rewrite Hl. unfold Series.index. apply length_map.
Qed.

(** ** The hedge ratio at the edges *)

Lemma one_over_zero : F64.div F64.one (Fin 0) = PInf.
Proof.
  unfold F64.div, F64.one.
  destruct (Req_EM_T 0 0) as [_ | N]; [| contradiction N; reflexivity].
  destruct (Req_EM_T 1 0) as [E | _]; [exfalso; lra |].
  apply inf_of_sign_pos. lra.
Qed.

Lemma zero_times_inf : F64.mul (Fin 0) PInf = NaN.
Proof.
  simpl. destruct (Req_EM_T 0 0) as [_ | N]; [reflexivity | contradiction N; reflexivity].
Qed.

Lemma single_center_dot (b : f64) :
  dot (center [b]) (center [b]) = Fin 0 \/ dot (center [b]) (center [b]) = NaN.
Proof.
  assert (H1 : (INR 1 = 1)%R) by reflexivity.
  unfold dot, center, Series.mean, Series.sum. cbn [length map combine fold_right fst snd].
  rewrite H1. destruct b as [r | | |]; simpl.
  - left. destruct (Req_EM_T 1 0) as [E | _]; [exfalso; lra |].
    simpl. f_equal. field.
  - right. destruct (Rlt_dec 1 0); [exfalso; lra | reflexivity].
  - right. destruct (Rlt_dec 1 0); [exfalso; lra | reflexivity].
  - right. reflexivity.
Qed.

(** With fewer than two observations [calculate_hedge_ratio] raises nothing
    and returns [nan]: [np.cov] has no degree of freedom left and its entries
    are [nan]. *)
Theorem hedge_ratio_needs_two_observations (y x : series) :
  length y = length x ->
  (length y <= 1)%nat ->
  calculate_hedge_ratio y x = Ok NaN.
Proof.
  intros Hlen Hn.
  destruct y as [| a [| a' y]]; destruct x as [| b [| b' x]];
    try discriminate; try (simpl in Hn; lia).
  - unfold calculate_hedge_ratio.
    change (np_cov [] [])
      with (Ok (Cov (F64.mul (Fin 0) (F64.div F64.one (Fin 0)))
                    (F64.mul (Fin 0) (F64.div F64.one (Fin 0)))
                    (F64.mul (Fin 0) (F64.div F64.one (Fin 0)))
                    (F64.mul (Fin 0) (F64.div F64.one (Fin 0))))).
    cbn [c01 c11]. rewrite one_over_zero, zero_times_inf. reflexivity.
  - unfold calculate_hedge_ratio.
    change (np_cov [a] [b])
      with (Ok (Cov (F64.mul (dot (center [a]) (center [a]))
                             (F64.div F64.one (Fin 0)))
                    (F64.mul (dot (center [a]) (center [b]))
                             (F64.div F64.one (Fin 0)))
                    (F64.mul (dot (center [b]) (center [a]))
                             (F64.div F64.one (Fin 0)))
                    (F64.mul (dot (center [b]) (center [b]))
                             (F64.div F64.one (Fin 0))))).
    cbn [c01 c11]. rewrite one_over_zero.
    destruct (single_center_dot b) as [E | E]; rewrite E.
    + rewrite zero_times_inf, div_by_nan. reflexivity.
    + change (F64.mul NaN PInf) with NaN. rewrite div_by_nan. reflexivity.
Qed.

Lemma hedge_ratio_needs_two_observations_witness :
  calculate_hedge_ratio [Fin 10] [Fin 5] = Ok NaN.
Proof.
  apply (hedge_ratio_needs_two_observations [Fin 10] [Fin 5]).
  - reflexivity.
  - simpl. lia.
Defined.

(** ** The spread against X *)

Lemma Rsum_residuals (h : R) (Y X : list R) :
  length Y = length X ->
  Rsum (map (fun p => (fst p - h * snd p)%R) (combine Y X))
  = (Rsum Y - h * Rsum X)%R.
Proof.
  revert X. induction Y as [| y Y IH]; intros [| x X] H; try discriminate.
  - simpl. ring.
  - simpl in H. injection H as H.
    change (Rsum (map (fun p => (fst p - h * snd p)%R) (combine (y :: Y) (x :: X))))
      with ((y - h * x) + Rsum (map (fun p => (fst p - h * snd p)%R) (combine Y X)))%R.
    change (Rsum (y :: Y)) with (y + Rsum Y)%R.
    change (Rsum (x :: X)) with (x + Rsum X)%R.
    rewrite (IH X H). ring.
Qed.

Lemma Rsum_residual_products (h mS mY mX : R) (Y X : list R) :
  length Y = length X ->
  mS = (mY - h * mX)%R ->
  Rsum (map (fun p => ((fst p - mS) * (snd p - mX))%R)
            (combine (map (fun p => (fst p - h * snd p)%R) (combine Y X)) X))
  = (Rsum (map (fun p => ((fst p - mY) * (snd p - mX))%R) (combine Y X))
     - h * Rsum (map (fun p => ((fst p - mX) * (snd p - mX))%R) (combine X X)))%R.
Proof.
  intros Hlen ->. revert X Hlen.
  induction Y as [| y Y IH]; intros [| x X] H; try discriminate.
  - simpl. ring.
  - simpl in H. injection H as H. specialize (IH X H).
    cbn [combine map fst snd].
    change (Rsum (?a :: ?l)) with (a + Rsum l)%R.
    cbn [fst snd]. rewrite IH.
    change (Rsum (((y - mY) * (x - mX))%R
                  :: map (fun p => ((fst p - mY) * (snd p - mX))%R) (combine Y X)))
      with ((y - mY) * (x - mX)
            + Rsum (map (fun p => ((fst p - mY) * (snd p - mX))%R) (combine Y X)))%R.
    change (Rsum (((x - mX) * (x - mX))%R
                  :: map (fun p => ((fst p - mX) * (snd p - mX))%R) (combine X X)))
      with ((x - mX) * (x - mX)
            + Rsum (map (fun p => ((fst p - mX) * (snd p - mX))%R) (combine X X)))%R.
    ring.
Qed.

(** The spread built with the computed hedge ratio is uncorrelated with [X]:
    its sample covariance with [X] is zero. *)
Theorem spread_uncorrelated_with_x (Y X : list R) :
  length Y = length X ->
  (2 <= length Y)%nat ->
  sample_var X <> 0%R ->
  exists h S,
    calculate_hedge_ratio (finite Y) (finite X) = Ok (Fin h)
    /\ calculate_spread (finite Y) (finite X) (Fin h) = finite S
    /\ length S = length X
    /\ sample_cov S X = 0%R.
Proof.
  intros Hlen Hn Hvar.
  assert (HnX : (2 <= length X)%nat) by lia.
  pose proof (variance_Rcdot X HnX Hvar) as Hxx.
  exists (Rcdot Y X / Rcdot X X)%R.
  exists (map (fun p => (fst p - Rcdot Y X / Rcdot X X * snd p)%R) (combine Y X)).
  assert (HlenS : length (map (fun p => (fst p - Rcdot Y X / Rcdot X X * snd p)%R)
                              (combine Y X)) = length X).
  { rewrite length_map, length_combine. lia. }
  split; [apply hedge_ratio_finite; assumption |].
  split; [apply spread_finite; assumption |].
  split; [exact HlenS |].
  rewrite sample_cov_Rcdot. unfold Rcdot at 1.
  rewrite (Rsum_residual_products (Rcdot Y X / Rcdot X X) _ (Rmean Y) (Rmean X) Y X Hlen).
  - fold (Rcdot Y X). fold (Rcdot X X). rewrite HlenS.
    assert (Hnz : (INR (length X) - 1 <> 0)%R).
    { apply le_INR in HnX. simpl in HnX. lra. }
    field. split; assumption.
  - unfold Rmean at 1. rewrite Rsum_residuals by exact Hlen.
    rewrite HlenS. unfold Rmean. rewrite Hlen. field.
    split; [apply not_0_INR; lia | exact Hxx].
Qed.

Lemma spread_uncorrelated_with_x_witness :
  exists h S,
    calculate_hedge_ratio (finite [1; 2; 4]%R) (finite [1; 2; 3]%R) = Ok (Fin h)
    /\ calculate_spread (finite [1; 2; 4]%R) (finite [1; 2; 3]%R) (Fin h) = finite S
    /\ length S = length [1; 2; 3]%R
    /\ sample_cov S [1; 2; 3]%R = 0%R.
Proof.
  apply (spread_uncorrelated_with_x [1; 2; 4]%R [1; 2; 3]%R).
  - reflexivity.
  - simpl. lia.
  - unfold sample_var, sample_cov, Rmean. simpl. lra.
Defined.

(** ** Too few aligned rows *)

(** With numpy's [polyfit], when the aligned frame has at most one row (the
    two symbols share no date, or one) the run computes a hedge ratio and a
    spread and ends in [calculate_half_life] with a [TypeError] that nothing
    catches. *)
Theorem short_frame_run_raises (y x : series) :
  length y = length x ->
  (length y <= 1)%nat ->
  statistics lstsq_line y x
  = ([Computes HedgeRatio; Computes Spread; Computes HalfLife], Raise TypeError).
Proof.
  intros Hlen Hn.
  destruct (statistics_run lstsq_line y x Hlen) as (h & _ & Hstat).
  cbv zeta in Hstat.
  assert (Hraise : calculate_half_life lstsq_line (calculate_spread y x h)
                   = Raise TypeError).
  { unfold calculate_half_life. rewrite no_lagged_values; [reflexivity |].
    assert (Hs : (length (calculate_spread y x h) <= 1)%nat).
    { unfold calculate_spread, Series.sub. rewrite map2_length; [exact Hn |].
      unfold Series.scale. rewrite length_map. exact Hlen. }
    destruct (calculate_spread y x h) as [| v [| v' l]];
      [constructor | constructor | simpl in Hs; lia]. }
  rewrite Hraise in Hstat. exact Hstat.
Qed.

Lemma short_frame_run_raises_witness :
  statistics lstsq_line [Fin 10] [Fin 5]
  = ([Computes HedgeRatio; Computes Spread; Computes HalfLife], Raise TypeError).
Proof.
  apply (short_frame_run_raises [Fin 10] [Fin 5]).
  - reflexivity.
  - simpl. lia.
Defined.

(** * The arithmetic in binary64 *)

Module Binary64.
Import Floats.
Local Open Scope float_scope.

(** ** Special values *)

Lemma float_eq_nan (v : float) : Prim2SF v = S754_nan -> v = nan.
Proof. intros H. apply Prim2SF_inj. rewrite H. reflexivity. Qed.

Lemma nan_times (v : float) : nan * v = nan.
Proof. apply float_eq_nan. rewrite mul_spec. reflexivity. Qed.

Lemma minus_nan (v : float) : v - nan = nan.
Proof.
  apply float_eq_nan. rewrite sub_spec.
  change (Prim2SF nan) with S754_nan. destruct (Prim2SF v); reflexivity.
Qed.

Lemma zero_times (a z : float) :
  B64.is_zero z = true ->
  B64.zero_or_nan (a * z) = true /\ B64.zero_or_nan (z * a) = true.
Proof.
  unfold B64.is_zero, B64.zero_or_nan. rewrite !mul_spec.
  destruct (Prim2SF z); try discriminate. intros _.
  destruct (Prim2SF a); split; reflexivity.
Qed.

Lemma zero_or_nan_times (a k : float) :
  B64.zero_or_nan a = true -> B64.zero_or_nan (a * k) = true.
Proof.
  unfold B64.zero_or_nan. rewrite mul_spec.
  destruct (Prim2SF a); try discriminate; intros _;
    destruct (Prim2SF k); reflexivity.
Qed.

Lemma zero_or_nan_add (a b : float) :
  B64.zero_or_nan a = true -> B64.zero_or_nan b = true ->
  B64.zero_or_nan (a + b) = true.
Proof.
  unfold B64.zero_or_nan. rewrite add_spec.
  destruct (Prim2SF a) as [sa | | |]; try discriminate; intros _;
    destruct (Prim2SF b) as [sb | | |]; try discriminate; intros _;
    try reflexivity.
  destruct sa, sb; reflexivity.
Qed.

(** [0/0], and every quotient with [nan], is [nan]. *)
Lemma zero_or_nan_div (a b : float) :
  B64.zero_or_nan a = true -> B64.zero_or_nan b = true -> a / b = nan.
Proof.
  unfold B64.zero_or_nan. intros Ha Hb. apply float_eq_nan. rewrite div_spec.
  destruct (Prim2SF a); try discriminate;
    destruct (Prim2SF b); try discriminate; reflexivity.
Qed.

Lemma zero_or_nan_fold (s : list float) (a : float) :
  B64.zero_or_nan a = true ->
  Forall (fun v => B64.zero_or_nan v = true) s ->
  B64.zero_or_nan (fold_left PrimFloat.add s a) = true.
Proof.
  intros Ha Hs. revert a Ha.
  induction Hs as [| v s Hv _ IH]; intros a Ha; [exact Ha |].
  simpl. apply IH, zero_or_nan_add; assumption.
Qed.

Lemma zero_or_nan_sum (s : list float) :
  Forall (fun v => B64.zero_or_nan v = true) s ->
  B64.zero_or_nan (B64.sum s) = true.
Proof.
  intros Hs. destruct Hs as [| v s Hv Hs]; [reflexivity |].
  apply zero_or_nan_fold; assumption.
Qed.

(** A dot product with an array of zeros is a zero or [nan]. *)
Lemma zero_or_nan_dot (a z : list float) :
  Forall (fun v => B64.is_zero v = true) z ->
  B64.zero_or_nan (B64.dot a z) = true.
Proof.
  intros Hz. unfold B64.dot. apply zero_or_nan_sum.
  apply Forall_forall. intros v Hv. apply in_map_iff in Hv.
  destruct Hv as ([p q] & <- & Hp). apply in_combine_r in Hp.
  rewrite Forall_forall in Hz. apply (zero_times p q), Hz, Hp.
Qed.

(** ** The hedge ratio of a constant X *)

Lemma spread_of_nan_ratio (y x : list float) :
  length y = length x ->
  B64.calculate_spread y x nan = map (fun _ => nan) y.
Proof.
  unfold B64.calculate_spread, B64.sub, B64.scale. revert x.
  induction y as [| a y IH]; intros [| b x] H; try discriminate;
    [reflexivity |].
  simpl. rewrite nan_times, minus_nan. f_equal. apply IH. simpl in H. lia.
Qed.

(** C1, amended: [calculate_hedge_ratio] tests nothing and [main] does not
    test its result.  On arrays of the same length whose centred [X] is zero
    at every index (a constant [X] whose mean is computed exactly, such as
    [[5, 5, 5]]) it raises nothing and returns [nan], in whatever order the
    sums are taken, and the spread built from [nan] is [nan] at every index;
    and on any two columns of the same length the run goes from the hedge
    ratio to the spread and on to [calculate_half_life]. *)
Theorem hedge_ratio_unchecked
    (np_sum : list float -> float)
    (np_dot : list float -> list float -> float) (y x : list float) :
  (forall a z, Forall (fun v => B64.is_zero v = true) z ->
               B64.zero_or_nan (np_dot a z) = true) ->
  length y = length x ->
  Forall (fun v => B64.is_zero v = true) (B64.center np_sum x) ->
  B64.calculate_hedge_ratio np_sum np_dot y x = Ok nan
  /\ B64.calculate_spread y x nan = map (fun _ => nan) y
  /\ forall (np_polyfit_1 : series -> series -> result (f64 * f64))
            (asset_y asset_x : series),
       length asset_y = length asset_x ->
       exists rest,
         trace (statistics np_polyfit_1 asset_y asset_x)
         = Computes HedgeRatio :: Computes Spread :: Computes HalfLife :: rest.
Proof.
  intros Hdot Hlen Hx. split; [| split].
  - unfold B64.calculate_hedge_ratio, B64.np_cov.
    rewrite Hlen, Nat.eqb_refl. cbn [B64.c01 B64.c11]. f_equal.
    apply zero_or_nan_div; apply zero_or_nan_times, Hdot, Hx.
  - apply spread_of_nan_ratio, Hlen.
  - intros np_polyfit_1 asset_y asset_x Hcols.
    destruct (hedge_ratio_returns asset_y asset_x Hcols) as [h Hh].
    exact (statistics_trace_prefix np_polyfit_1 asset_y asset_x h Hh).
Qed.

Lemma hedge_ratio_unchecked_witness :
  B64.calculate_hedge_ratio B64.sum B64.dot [1; 2; 4] [5; 5; 5] = Ok nan
  /\ B64.calculate_spread [1; 2; 4] [5; 5; 5] nan = [nan; nan; nan]
  /\ exists rest,
       trace (statistics lstsq_line (finite [1; 2; 4]%R) (finite [5; 5; 5]%R))
       = Computes HedgeRatio :: Computes Spread :: Computes HalfLife :: rest.
Proof.
  destruct (hedge_ratio_unchecked B64.sum B64.dot [1; 2; 4] [5; 5; 5])
    as (Hh & Hs & Hrun).
  - exact zero_or_nan_dot.
  - reflexivity.
  - vm_compute. repeat constructor.
  - split; [exact Hh |]. split; [exact Hs |].
    apply (Hrun lstsq_line). reflexivity.
Defined.

(** A constant [X] whose mean is not computed exactly: the three values
    [0.1] sum to [0.30000000000000004], the centred values are not zero and
    the hedge ratio is a number, [10.666666666666666]. *)
Lemma constant_tenths_hedge_ratio :
  B64.calculate_hedge_ratio B64.sum B64.dot [1; 2; 4]
    [0x1.999999999999ap-4; 0x1.999999999999ap-4; 0x1.999999999999ap-4]
  = Ok 0x1.5555555555555p+3.
Proof. vm_compute. reflexivity. Qed.

(** ** A constant added to Y *)

(** [Y = [1, 4, 7]] shifted by [1e16] is [[1e16, 1e16 + 4, 1e16 + 8]] after
    rounding; from there on every sum, mean and product is exact, in any
    order. *)
Lemma shifted_hedge_ratios :
  B64.plus [1; 4; 7] 1e16 = [1e16; 10000000000000004; 10000000000000008]
  /\ B64.center B64.sum (B64.plus [1; 4; 7] 1e16) = [-4; 0; 4]
  /\ B64.center B64.sum [1; 4; 7] = [-3; 0; 3]
  /\ B64.calculate_hedge_ratio B64.sum B64.dot (B64.plus [1; 4; 7] 1e16)
       [1; 2; 3] = Ok 4
  /\ B64.calculate_hedge_ratio B64.sum B64.dot [1; 4; 7] [1; 2; 3] = Ok 3.
Proof. repeat split; vm_compute; reflexivity. Qed.

(** C9 as stated fails for [Y = [1, 4, 7]], [X = [1, 2, 3]] and [c = 1e16]:
    the centred values of [Y + c] are [[-4, 0, 4]] and not [[-3, 0, 3]], and
    the hedge ratio is 4 and not 3. *)
Lemma hedge_ratio_shift_counterexample :
  ~ (B64.calculate_hedge_ratio B64.sum B64.dot (B64.plus [1; 4; 7] 1e16)
       [1; 2; 3]
     = B64.calculate_hedge_ratio B64.sum B64.dot [1; 4; 7] [1; 2; 3]).
Proof.
  intros H.
  apply (f_equal (fun r => match r with
                           | Ok v => eqb v 4
                           | Raise _ => false
                           end)) in H.
  vm_compute in H. discriminate.
Qed.

(** C9, amended: adding [c] to every element of [Y] leaves the hedge ratio
    as it was whenever the centring absorbs the shift without rounding: the
    mean of [Y + c] is the mean of [Y] plus [c], and [(v + c) - (mean + c)]
    is [v - mean] for every value [v] of [Y].  This holds in whatever order
    the sums are taken. *)
Theorem hedge_ratio_shift
    (np_sum : list float -> float)
    (np_dot : list float -> list float -> float)
    (y x : list float) (c : float) :
  B64.mean np_sum (B64.plus y c) = B64.mean np_sum y + c ->
  (forall v, In v y ->
             (v + c) - (B64.mean np_sum y + c) = v - B64.mean np_sum y) ->
  B64.calculate_hedge_ratio np_sum np_dot (B64.plus y c) x
  = B64.calculate_hedge_ratio np_sum np_dot y x.
Proof.
  intros Hmean Hcancel.
  assert (Hc : B64.center np_sum (B64.plus y c) = B64.center np_sum y).
  { unfold B64.center. rewrite Hmean. unfold B64.plus. rewrite map_map.
    apply map_ext_in. exact Hcancel. }
  unfold B64.calculate_hedge_ratio, B64.np_cov. rewrite Hc.
  unfold B64.plus. rewrite length_map. reflexivity.
Qed.

Lemma hedge_ratio_shift_witness :
  B64.calculate_hedge_ratio B64.sum B64.dot (B64.plus [1; 2; 3] 4) [1; 2; 4]
  = B64.calculate_hedge_ratio B64.sum B64.dot [1; 2; 3] [1; 2; 4]
  /\ B64.calculate_hedge_ratio B64.sum B64.dot [1; 2; 3] [1; 2; 4]
     = Ok 0x1.4924924924925p-1.
Proof.
  split; [| vm_compute; reflexivity].
  apply (hedge_ratio_shift B64.sum B64.dot [1; 2; 3] [1; 2; 4] 4).
  - vm_compute. reflexivity.
  - intros v [<- | [<- | [<- | []]]]; vm_compute; reflexivity.
Defined.

(** ** The spread *)

Lemma binary_map2_length (f : float -> float -> float) (a b : list float) :
  length a = length b -> length (B64.map2 f a b) = length a.
Proof.
  revert b. induction a as [| u a IH]; intros [| v b] H; try discriminate;
    [reflexivity |].
  simpl. f_equal. apply IH. simpl in H. lia.
Qed.

Lemma binary_map2_nth_error (f : float -> float -> float) (a b : list float)
    (i : nat) (u v : float) :
  nth_error a i = Some u -> nth_error b i = Some v ->
  nth_error (B64.map2 f a b) i = Some (f u v).
Proof.
  revert b i. induction a as [| u0 a IH]; intros [| v0 b] [| i] Ha Hb;
    simpl in *; try discriminate.
  - congruence.
  - apply IH; assumption.
Qed.

(** C10 as stated fails for [Y = [1.0]], [X = [1e16]] and [h = 1]: the
    spread is [-1e16] after rounding and adding [h * X] back gives [0.0]. *)
Lemma spread_roundtrip_counterexample :
  ~ (B64.add (B64.calculate_spread [1] [1e16] 1) (B64.scale 1 [1e16]) = [1]).
Proof.
  intros H.
  apply (f_equal (fun l => match l with
                           | [v] => eqb v 0
                           | _ => false
                           end)) in H.
  vm_compute in H. discriminate.
Qed.

(** C10, amended: on series of the same length and for every hedge ratio,
    [nan] and the infinities included, the spread has the length of the
    inputs and its entry at every index [i] is [Y[i] - h * X[i]] in float
    arithmetic; adding [h * X] back gives [(Y[i] - h * X[i]) + h * X[i]],
    which is [Y[i]] only as far as the two operations do not round. *)
Theorem spread_elementwise (y x : list float) (hedge_ratio : float) :
  length y = length x ->
  let spread := B64.calculate_spread y x hedge_ratio in
  length spread = length y
  /\ forall i yi xi,
       nth_error y i = Some yi -> nth_error x i = Some xi ->
       nth_error spread i = Some (yi - hedge_ratio * xi)
       /\ nth_error (B64.add spread (B64.scale hedge_ratio x)) i
          = Some ((yi - hedge_ratio * xi) + hedge_ratio * xi).
Proof.
  intros Hlen spread.
  assert (Hscale : forall i xi, nth_error x i = Some xi ->
            nth_error (B64.scale hedge_ratio x) i = Some (hedge_ratio * xi)).
  { intros i xi Hx. unfold B64.scale. rewrite nth_error_map, Hx. reflexivity. }
  assert (Hspread : forall i yi xi,
            nth_error y i = Some yi -> nth_error x i = Some xi ->
            nth_error spread i = Some (yi - hedge_ratio * xi)).
  { intros i yi xi Hy Hx. unfold spread, B64.calculate_spread, B64.sub.
    apply (binary_map2_nth_error PrimFloat.sub); [exact Hy |].
    apply Hscale, Hx. }
  split.
  - unfold spread, B64.calculate_spread, B64.sub. apply binary_map2_length.
    unfold B64.scale. rewrite length_map. exact Hlen.
  - intros i yi xi Hy Hx. split; [exact (Hspread i yi xi Hy Hx) |].
    unfold B64.add. apply (binary_map2_nth_error PrimFloat.add).
    + exact (Hspread i yi xi Hy Hx).
    + apply Hscale, Hx.
Qed.

Lemma spread_elementwise_witness :
  length (B64.calculate_spread [10; 11] [5; 4] 2) = 2%nat
  /\ nth_error (B64.calculate_spread [10; 11] [5; 4] 2) 1 = Some 3
  /\ nth_error (B64.calculate_spread [10; 11] [5; 4] nan) 1 = Some nan.
Proof.
  destruct (spread_elementwise [10; 11] [5; 4] 2 eq_refl) as [Hlen Hat].
  destruct (spread_elementwise [10; 11] [5; 4] nan eq_refl) as [_ Hnan].
  split; [exact Hlen |]. split.
  - destruct (Hat 1%nat 11 4 eq_refl eq_refl) as [H _]. rewrite H.
    vm_compute. reflexivity.
  - destruct (Hnan 1%nat 11 4 eq_refl eq_refl) as [H _]. rewrite H.
    rewrite nan_times, minus_nan. reflexivity.
Defined.

(** ** The half-life and the z-score window *)




(** A slope of [-0.5]: the half-life is [2 ln 2] and the window is 1. *)
Lemma example_slope_window :
  B64.py_max1 (- B64.np_log_2 / (-0.5)) = 0x1.62e42fefa39efp+0
  /\ B64.py_int (B64.py_max1 (- B64.np_log_2 / (-0.5))) = Ok 1%Z.
Proof. split; vm_compute; reflexivity. Qed.



End Binary64.
